(** * Lifecycle of the three.js example scenes

    A shallow embedding of [gltf-example.ts], [planet-example.ts] and
    [texture-example.ts].  Every class method becomes a computation in a
    state-and-exception monad over the pair (instance fields, three.js world).
    The three.js world is an object store (the scene graph, objects named by
    their index), the table of disposable resources, the log of calls that
    reach the renderer and the other collaborators, and the asynchronous
    loads in flight.

    JavaScript numbers are idealised as rationals.  Literal colours,
    positions, scales and the debug-panel folders that only forward a value
    to a light or a pass are left out: no lifecycle property reads them. *)

From Stdlib Require Import QArith.
From stdpp Require Import base option list.

Local Open Scope Q_scope.

(** ** The state-and-exception monad *)

Inductive Error : Type :=
| TypeError.

Inductive Outcome (A : Type) : Type :=
| Done (a : A)
| Raised (e : Error).
Arguments Done {A} a.
Arguments Raised {A} e.

Definition M (S A : Type) : Type := S -> Outcome A * S.

Section Monad.
Context {S : Type}.

Definition ret {A} (a : A) : M S A := fun s => (Done a, s).

Definition bind {A B} (m : M S A) (k : A -> M S B) : M S B :=
  fun s =>
    match fst (m s) with
    | Done a => k a (snd (m s))
    | Raised e => (Raised e, snd (m s))
    end.

Definition raise {A} (e : Error) : M S A := fun s => (Raised e, s).

Definition get : M S S := fun s => (Done s, s).

Definition modify (f : S -> S) : M S unit := fun s => (Done tt, f s).

(** [for (const x of xs) body(x)] and [xs.forEach(body)]. *)
Fixpoint for_each {A} (xs : list A) (body : A -> M S unit) : M S unit :=
  match xs with
  | [] => ret tt
  | x :: rest => bind (body x) (fun _ => for_each rest body)
  end.
End Monad.

Declare Scope monad_scope.
Delimit Scope monad_scope with monad.
Bind Scope monad_scope with M.
Notation "x <- m ;; k" := (bind m (fun x => k))
  (at level 100, m at next level, k at level 200, right associativity)
  : monad_scope.
Notation "m ;; k" := (bind m (fun _ => k))
  (at level 100, k at level 200, right associativity) : monad_scope.
Local Open Scope monad_scope.

(** The state a computation ends in, and whether it returned. *)
Definition exec {S A} (m : M S A) (s : S) : S := snd (m s).

Definition returns {S A} (m : M S A) (s : S) : Prop :=
  exists a, fst (m s) = Done a.

(** ** three.js, as far as the examples use it *)

Module Three.

(** Objects and disposable resources are named by their position in the
    store. *)
Abbreviation ObjId := nat (only parsing).
Abbreviation ResId := nat (only parsing).

(** A mesh carries [geometry] and [material]; a single material is
    the one-element array, as [destroy] of the glTF example treats it. *)
Inductive ObjKind : Type :=
| KScene
| KCamera
| KLight
| KGroup
| KMesh (geometry : ResId) (material : list ResId)
| KLineSegments (geometry : ResId) (material : ResId).

Inductive Background : Type :=
| BgColor (hex : Z)
| BgTexture (t : ResId).

Record Object3D : Type := mkObject3D {
  kind : ObjKind;
  parent : option ObjId;
  children : list ObjId;
  rotation_z : Q;              (* angle accumulated by rotateZ *)
  castShadow : bool;
  receiveShadow : bool;
  background : option Background;   (* Scene only *)
  environment : option ResId        (* Scene only *)
}.

Definition blank (k : ObjKind) : Object3D :=
  mkObject3D k None [] 0 false false None None.

Definition isMesh (o : Object3D) : bool :=
  match kind o with KMesh _ _ => true | _ => false end.

Definition set_parent (p : option ObjId) (o : Object3D) : Object3D :=
  mkObject3D (kind o) p (children o) (rotation_z o) (castShadow o)
             (receiveShadow o) (background o) (environment o).

Definition set_children (cs : list ObjId) (o : Object3D) : Object3D :=
  mkObject3D (kind o) (parent o) cs (rotation_z o) (castShadow o)
             (receiveShadow o) (background o) (environment o).

Definition set_kind (k : ObjKind) (o : Object3D) : Object3D :=
  mkObject3D k (parent o) (children o) (rotation_z o) (castShadow o)
             (receiveShadow o) (background o) (environment o).

Definition set_rotation_z (r : Q) (o : Object3D) : Object3D :=
  mkObject3D (kind o) (parent o) (children o) r (castShadow o)
             (receiveShadow o) (background o) (environment o).

Definition set_castShadow (b : bool) (o : Object3D) : Object3D :=
  mkObject3D (kind o) (parent o) (children o) (rotation_z o) b
             (receiveShadow o) (background o) (environment o).

Definition set_receiveShadow (b : bool) (o : Object3D) : Object3D :=
  mkObject3D (kind o) (parent o) (children o) (rotation_z o) (castShadow o)
             b (background o) (environment o).

Definition set_background (b : option Background) (o : Object3D) : Object3D :=
  mkObject3D (kind o) (parent o) (children o) (rotation_z o) (castShadow o)
             (receiveShadow o) b (environment o).

Definition set_environment (e : option ResId) (o : Object3D) : Object3D :=
  mkObject3D (kind o) (parent o) (children o) (rotation_z o) (castShadow o)
             (receiveShadow o) (background o) e.

(** [mesh.material = m] *)
Definition set_material (m : ResId) (o : Object3D) : Object3D :=
  match kind o with
  | KMesh g _ => set_kind (KMesh g [m]) o
  | _ => o
  end.

Inductive ResKind : Type :=
| Geometry
| Material
| Texture.

(** The asynchronous loads of the three examples. *)
Inductive Load : Type :=
| TextureLoad (i : nat)      (* the i-th map of the rust material *)
| ObjLoad                    (* material_sphere.obj *)
| CubemapLoad                (* the pisa environment *)
| GltfLoad.                  (* LittlestTokyo.glb *)

#[global] Instance Load_eq_dec : EqDecision Load.
Proof. solve_decision. Defined.

(** Calls on the collaborators that leave a trace. *)
Inductive Call : Type :=
| RendererRender (scene camera : ObjId)   (* WebGLRenderer.render *)
| ComposerRender                          (* EffectComposer.render *)
| ComposerSetSize (w h : Q)
| DepthTargetSetSize (w h : Q)            (* bokeh.renderTargetDepth.setSize *)
| SurfaceResize (w h : Q)                 (* the default resize *)
| MixerUpdate (delta : Q)                 (* AnimationMixer.update *)
| Dispose (r : ResId)                     (* geometry/material dispose *)
| ConsoleLog.

Record World : Type := mkWorld {
  heap : list Object3D;        (* every Object3D ever constructed *)
  resources : list ResKind;    (* every geometry, material, texture *)
  calls : list Call;           (* oldest first *)
  loading : list Load;         (* started, outcome not yet delivered *)
  settled : list Load          (* outcome delivered *)
}.

Definition empty_world : World := mkWorld [] [] [] [] [].

Definition with_heap (h : list Object3D) (w : World) : World :=
  mkWorld h (resources w) (calls w) (loading w) (settled w).

Definition with_resources (r : list ResKind) (w : World) : World :=
  mkWorld (heap w) r (calls w) (loading w) (settled w).

Definition with_calls (c : list Call) (w : World) : World :=
  mkWorld (heap w) (resources w) c (loading w) (settled w).

Definition with_loading (l : list Load) (w : World) : World :=
  mkWorld (heap w) (resources w) (calls w) l (settled w).

Definition with_settled (l : list Load) (w : World) : World :=
  mkWorld (heap w) (resources w) (calls w) (loading w) l.

(** [new X(...)] for an Object3D and for a disposable resource. *)
Definition new_object (k : ObjKind) : M World ObjId :=
  fun w => (Done (length (heap w)), with_heap (heap w ++ [blank k]) w).

Definition new_resource (k : ResKind) : M World ResId :=
  fun w => (Done (length (resources w)),
            with_resources (resources w ++ [k]) w).

Definition update_object (id : ObjId) (f : Object3D -> Object3D)
  : M World unit :=
  modify (fun w => with_heap (alter f id (heap w)) w).

Definition call (c : Call) : M World unit :=
  modify (fun w => with_calls (calls w ++ [c]) w).

Definition children_of (h : list Object3D) (id : ObjId) : list ObjId :=
  match h !! id with Some o => children o | None => [] end.

Definition parent_of (h : list Object3D) (id : ObjId) : option ObjId :=
  match h !! id with Some o => parent o | None => None end.

Definition remove_id (c : ObjId) (cs : list ObjId) : list ObjId :=
  filter (fun x => x <> c) cs.

(** [Object3D.remove]: detach [c] from [p] when it is a child of [p]. *)
Definition remove (p c : ObjId) : M World unit :=
  w <- get ;;
  if decide (c ∈ children_of (heap w) p) then
    update_object c (set_parent None) ;;
    update_object p (fun o => set_children (remove_id c (children o)) o)
  else ret tt.

(** [Object3D.add]: a child that has a parent leaves it first. *)
Definition add (p c : ObjId) : M World unit :=
  w <- get ;;
  match parent_of (heap w) c with
  | Some q => remove q c
  | None => ret tt
  end ;;
  update_object c (set_parent (Some p)) ;;
  update_object p (fun o => set_children (children o ++ [c]) o).

(** [Object3D.clear]: every child loses its parent, the list is emptied. *)
Definition clear (p : ObjId) : M World unit :=
  w <- get ;;
  for_each (children_of (heap w) p)
           (fun c => update_object c (set_parent None)) ;;
  update_object p (set_children []).

(** [Object3D.traverse] visits the object, then each child's subtree.
    The store has no cycle-freedom built in, so the descent is bounded;
    a tree of [n] objects is covered by a bound of [n]. *)
Fixpoint traverse_order (fuel : nat) (h : list Object3D) (id : ObjId)
  : list ObjId :=
  match fuel with
  | O => []
  | S n => id :: flat_map (traverse_order n h) (children_of h id)
  end.

(** The callbacks of the examples never change the tree shape, so the
    order of the visit is fixed when the traversal starts. *)
Definition traverse {T} (root : ObjId) (cb : ObjId -> M (T * World) unit)
  : M (T * World) unit :=
  s <- get ;;
  for_each (traverse_order (length (heap (snd s))) (heap (snd s)) root) cb.

(** [Object3D.rotateZ]: rotations about the same local axis add up. *)
Definition rotateZ (id : ObjId) (angle : Q) : M World unit :=
  update_object id (fun o => set_rotation_z (rotation_z o + angle) o).

Definition dispose (r : ResId) : M World unit := call (Dispose r).

Definition renderer_render (scene camera : ObjId) : M World unit :=
  call (RendererRender scene camera).

(** Starting a load, and delivering its single outcome. *)
Definition start_load (l : Load) : M World unit :=
  modify (fun w => with_loading (loading w ++ [l]) w).

Definition settle_load (l : Load) : M World unit :=
  modify (fun w =>
    with_settled (settled w ++ [l])
                 (with_loading (filter (fun x => x <> l) (loading w)) w)).

(** The resources [dispose] was called on, in call order, and how often
    it was called on a given one. *)
Definition disposed (w : World) : list ResId :=
  omap (fun c => match c with Dispose r => Some r | _ => None end) (calls w).

Definition dispose_count (r : ResId) (w : World) : nat :=
  length (filter (fun x => x = r) (disposed w)).

(** The calls that put a frame on the rendering surface. *)
Definition direct_renders (w : World) : nat :=
  length (omap (fun c => match c with
                         | RendererRender _ _ => Some tt
                         | _ => None
                         end) (calls w)).

(** What a model file decodes to: its own geometries and materials (the
    meshes name them by position in [file_resources], so two meshes can
    share one), a tree of objects and a list of animation clips. *)
Inductive AssetKind : Type :=
| AGroup
| AMesh (geometry : nat) (material : list nat).

#[warnings="-register-all"]
Inductive Asset : Type :=
| ANode (k : AssetKind) (parts : list Asset).

Record File : Type := mkFile {
  file_resources : list ResKind;
  file_root : Asset;
  file_animations : list nat
}.

Definition asset_kind (off : nat) (k : AssetKind) : ObjKind :=
  match k with
  | AGroup => KGroup
  | AMesh g ms => KMesh (off + g)%nat (map (Nat.add off) ms)
  end.

(** The loader builds the objects of the file, parents before children;
    [build inst id parts] is the loop that builds each part with [inst]
    and adds it to the object [id]. *)
Definition build (inst : Asset -> M World ObjId) (id : ObjId)
  : list Asset -> M World unit :=
  fix loop (l : list Asset) : M World unit :=
    match l with
    | [] => ret tt
    | c :: rest => cid <- inst c ;; add id cid ;; loop rest
    end.

Fixpoint instantiate (off : nat) (a : Asset) : M World ObjId :=
  match a with
  | ANode k parts =>
      id <- new_object (asset_kind off k) ;;
      build (instantiate off) id parts ;;
      ret id
  end.

Definition decode (f : File) : M World ObjId :=
  w <- get ;;
  modify (with_resources (resources w ++ file_resources f)) ;;
  instantiate (length (resources w)) (file_root f).

(** [w'] has the objects of [w] unchanged and at least one more, the first
    new one still without a parent; [loading], [settled], [calls] and
    [resources] are those of [w]. *)
Definition extends (w w' : World) : Prop :=
  (length (heap w) < length (heap w'))%nat /\
  (forall j, (j < length (heap w))%nat -> heap w' !! j = heap w !! j) /\
  parent_of (heap w') (length (heap w)) = None /\
  resources w' = resources w /\ calls w' = calls w /\
  loading w' = loading w /\ settled w' = settled w.

(** [w'] differs from [w] at most in fields of objects other than their
    [parent] and [children]. *)
Definition same_shape (w w' : World) : Prop :=
  length (heap w') = length (heap w) /\
  (forall j, children_of (heap w') j = children_of (heap w) j) /\
  (forall j, parent_of (heap w') j = parent_of (heap w) j) /\
  resources w' = resources w /\ calls w' = calls w /\
  loading w' = loading w /\ settled w' = settled w.

End Three.

Import Three.

(** ** Instance state next to the world *)

Section Instance.
Context {T : Type}.

Definition this : M (T * World) T := fun s => (Done (fst s), s).

Definition set_this (f : T -> T) : M (T * World) unit :=
  modify (fun s => (f (fst s), snd s)).

(** A three.js call made from a method. *)
Definition world {A} (m : M World A) : M (T * World) A :=
  fun s => (fst (m (snd s)), (fst s, snd (m (snd s)))).

(** A method of the base class run on the [base] part of the instance. *)
Definition super {U A} (proj : T -> U) (inj : U -> T -> T)
           (m : M (U * World) A) : M (T * World) A :=
  fun s =>
    let r := m (proj (fst s), snd s) in
    (fst r, (inj (fst (snd r)) (fst s), snd (snd r))).
End Instance.

(** [new C(renderer)] in a fresh page; [unused] stands in the branch a
    constructor that returns never takes. *)
Definition construct {T} (c : M World T) (unused : T) : T * World :=
  match c empty_world with
  | (Done t, w) => (t, w)
  | (Raised _, w) => (unused, w)
  end.

(** ** The base class [Example] *)

Module Example.

Inductive Lifecycle : Type :=
| Uninitialized
| Initialized
| Destroyed.

Record Example : Type := mkExample {
  _scene : ObjId;
  _cam : ObjId;
  lifecycle : Lifecycle
}.

Definition set_lifecycle (l : Lifecycle) (e : Example) : Example :=
  mkExample (_scene e) (_cam e) l.

(** Modelled from the spec: [example.ts] is not part of the sources.  The
    session "owns one rendering surface, one camera, one scene graph
    root"; the instance starts in state Uninitialized. *)
Definition constructor : M World Example :=
  scene <- new_object KScene ;;
  cam <- new_object KCamera ;;
  ret (mkExample scene cam Uninitialized).

(** Modelled from the spec: the base [initialize] of [example.ts]
    "transitions Uninitialized->Initialized"; what goes into the scene is
    the work of each demo. *)
Definition initialize : M (Example * World) unit :=
  set_this (set_lifecycle Initialized).

(** Modelled from the spec: the base [destroy] of [example.ts]
    "transitions Initialized->Destroyed".  It neither disposes nor clears:
    the spec calls the texture demo's [destroy], which only calls it,
    "a stated no-op", and the other two demos clear the scene themselves
    after calling it. *)
Definition destroy : M (Example * World) unit :=
  set_this (set_lifecycle Destroyed).

(** Modelled from the spec: the base [render] of [example.ts]; "default
    behavior is a direct camera render", and outside the Initialized
    state a call is "a no-op in release builds". *)
Definition render : M (Example * World) unit :=
  e <- this ;;
  match lifecycle e with
  | Initialized => world (renderer_render (_scene e) (_cam e))
  | _ => ret tt
  end.

(** Modelled from the spec: the base [resize] of [example.ts], the
    "session default" that a demo overriding [resize] calls through to;
    it takes the new surface size. *)
Definition resize (w h : Q) : M (Example * World) unit :=
  world (call (SurfaceResize w h)).

End Example.

(** ** [planet-example.ts] *)

Module Planets.

Record PlanetsExample : Type := mkPlanets {
  base : Example.Example;
  earth : option ObjId;
  mars : option ObjId;
  sun : option ObjId;
  disposableMaterial : list ResId;   (* a JS Set: insertion order, no repeats *)
  disposableGeometry : list ResId;
  systemVelocity : Q;                (* the [velocity] field of each holder *)
  earthVelocity : Q;
  marsVelocity : Q
}.

Definition set_base (b : Example.Example) (p : PlanetsExample) :=
  mkPlanets b (earth p) (mars p) (sun p) (disposableMaterial p)
            (disposableGeometry p) (systemVelocity p) (earthVelocity p)
            (marsVelocity p).

Definition set_earth (o : option ObjId) (p : PlanetsExample) :=
  mkPlanets (base p) o (mars p) (sun p) (disposableMaterial p)
            (disposableGeometry p) (systemVelocity p) (earthVelocity p)
            (marsVelocity p).

Definition set_mars (o : option ObjId) (p : PlanetsExample) :=
  mkPlanets (base p) (earth p) o (sun p) (disposableMaterial p)
            (disposableGeometry p) (systemVelocity p) (earthVelocity p)
            (marsVelocity p).

Definition set_sun (o : option ObjId) (p : PlanetsExample) :=
  mkPlanets (base p) (earth p) (mars p) o (disposableMaterial p)
            (disposableGeometry p) (systemVelocity p) (earthVelocity p)
            (marsVelocity p).

Definition set_disposableMaterial (s : list ResId) (p : PlanetsExample) :=
  mkPlanets (base p) (earth p) (mars p) (sun p) s
            (disposableGeometry p) (systemVelocity p) (earthVelocity p)
            (marsVelocity p).

Definition set_disposableGeometry (s : list ResId) (p : PlanetsExample) :=
  mkPlanets (base p) (earth p) (mars p) (sun p) (disposableMaterial p)
            s (systemVelocity p) (earthVelocity p) (marsVelocity p).

Definition set_velocities (vs ve vm : Q) (p : PlanetsExample) :=
  mkPlanets (base p) (earth p) (mars p) (sun p) (disposableMaterial p)
            (disposableGeometry p) vs ve vm.

(** [Set.prototype.add] *)
Definition set_add (r : ResId) (s : list ResId) : list ResId :=
  if decide (r ∈ s) then s else s ++ [r].

Definition track_material (r : ResId) : M (PlanetsExample * World) unit :=
  set_this (fun p => set_disposableMaterial (set_add r (disposableMaterial p)) p).

Definition track_geometry (r : ResId) : M (PlanetsExample * World) unit :=
  set_this (fun p => set_disposableGeometry (set_add r (disposableGeometry p)) p).

Definition constructor : M World PlanetsExample :=
  b <- Example.constructor ;;
  ret (mkPlanets b None None None [] [] 0.0015 0.005 0.003).

Definition initialize : M (PlanetsExample * World) unit :=
  super base set_base Example.initialize ;;
  p <- this ;;
  let scene := Example._scene (base p) in
  (* orbit material *)
  lineMaterial <- world (new_resource Material) ;;
  track_material lineMaterial ;;
  (* the sun *)
  basicMaterial <- world (new_resource Material) ;;
  track_material basicMaterial ;;
  sunGeometry <- world (new_resource Geometry) ;;
  track_geometry sunGeometry ;;
  sun_ <- world (new_object (KMesh sunGeometry [basicMaterial])) ;;
  set_this (set_sun (Some sun_)) ;;
  world (add scene sun_) ;;
  (* the light emitted by the sun *)
  light <- world (new_object KLight) ;;
  world (add sun_ light) ;;
  (* the Earth *)
  earthMaterial <- world (new_resource Material) ;;
  track_material earthMaterial ;;
  earthGeom <- world (new_resource Geometry) ;;
  track_geometry earthGeom ;;
  earth_ <- world (new_object (KMesh earthGeom [earthMaterial])) ;;
  set_this (set_earth (Some earth_)) ;;
  world (add sun_ earth_) ;;
  (* Earth's orbit *)
  circleGeom <- world (new_resource Geometry) ;;
  track_geometry circleGeom ;;
  orbitEdges <- world (new_resource Geometry) ;;
  track_geometry orbitEdges ;;
  orbit <- world (new_object (KLineSegments orbitEdges lineMaterial)) ;;
  world (add scene orbit) ;;
  (* Mars *)
  marsMaterial <- world (new_resource Material) ;;
  track_material marsMaterial ;;
  marsGeom <- world (new_resource Geometry) ;;
  track_geometry marsGeom ;;
  mars_ <- world (new_object (KMesh marsGeom [marsMaterial])) ;;
  set_this (set_mars (Some mars_)) ;;
  world (add sun_ mars_) ;;
  (* Mars orbit *)
  marsOrbitGeom <- world (new_resource Geometry) ;;
  track_geometry marsOrbitGeom ;;
  marsOrbitEdge <- world (new_resource Geometry) ;;
  track_geometry marsOrbitEdge ;;
  marsOrbit <- world (new_object (KLineSegments marsOrbitEdge lineMaterial)) ;;
  world (add scene marsOrbit).

Definition destroy : M (PlanetsExample * World) unit :=
  super base set_base Example.destroy ;;
  p <- this ;;
  for_each (disposableMaterial p) (fun elm => world (dispose elm)) ;;
  for_each (disposableGeometry p) (fun elm => world (dispose elm)) ;;
  set_this (set_disposableGeometry []) ;;
  set_this (set_disposableMaterial []) ;;
  world (clear (Example._scene (base p))).

Definition update (delta elapsed : Q) : M (PlanetsExample * World) unit :=
  p <- this ;;
  match earth p, sun p, mars p with
  | Some earth_, Some sun_, Some mars_ =>
      world (rotateZ sun_ (systemVelocity p)) ;;
      world (rotateZ earth_ (earthVelocity p)) ;;
      world (rotateZ mars_ (marsVelocity p))
  | _, _, _ => ret tt
  end ;;
  world (renderer_render (Example._scene (base p)) (Example._cam (base p))).

(** [render] is inherited. *)
Definition render : M (PlanetsExample * World) unit :=
  super base set_base Example.render.

(** The three bodies, their velocity holders and their accumulated angle. *)
Inductive Body : Type :=
| Sun
| Earth
| Mars.

Definition body (b : Body) (p : PlanetsExample) : option ObjId :=
  match b with
  | Sun => sun p
  | Earth => earth p
  | Mars => mars p
  end.

Definition velocity (b : Body) (p : PlanetsExample) : Q :=
  match b with
  | Sun => systemVelocity p
  | Earth => earthVelocity p
  | Mars => marsVelocity p
  end.

Definition rotation (b : Body) (s : PlanetsExample * World) : option Q :=
  match body b (fst s) with
  | Some id =>
      match heap (snd s) !! id with
      | Some o => Some (rotation_z o)
      | None => None
      end
  | None => None
  end.

(** The debug panel writes one velocity holder between two frames. *)
Definition tune (b : Body) (v : Q) : M (PlanetsExample * World) unit :=
  set_this (fun p =>
    match b with
    | Sun => set_velocities v (earthVelocity p) (marsVelocity p) p
    | Earth => set_velocities (systemVelocity p) v (marsVelocity p) p
    | Mars => set_velocities (systemVelocity p) (earthVelocity p) v p
    end).

(** What happens to an initialised instance while it is shown. *)
Inductive Event : Type :=
| Update (delta elapsed : Q)
| Render
| Tune (b : Body) (v : Q).

Definition handle (e : Event) : M (PlanetsExample * World) unit :=
  match e with
  | Update delta elapsed => update delta elapsed
  | Render => render
  | Tune b v => tune b v
  end.

Fixpoint updates (es : list Event) : nat :=
  match es with
  | [] => O
  | Update _ _ :: rest => Datatypes.S (updates rest)
  | _ :: rest => updates rest
  end.

(** The panel leaves the velocity of [b] at [v]. *)
Definition keeps (b : Body) (v : Q) (e : Event) : Prop :=
  match e with
  | Tune b' v' => b' = b -> v' == v
  | _ => True
  end.

(** [new PlanetsExample(renderer)] in a fresh page. *)
Definition fresh : PlanetsExample * World :=
  construct constructor
    (mkPlanets (Example.mkExample O O Example.Uninitialized)
               None None None [] [] 0 0 0).

End Planets.

(** ** [gltf-example.ts] *)

Module Gltf.

(** [THREE.Clock], started by the first [getDelta]. *)
Record Clock : Type := mkClock {
  running : bool;
  oldTime : Q
}.

Record AnimationMixer : Type := mkMixer {
  mixer_root : ObjId;
  mixer_time : Q;
  playing : list nat            (* clips whose action was played *)
}.

Record BokehPass : Type := mkBokeh {
  renderTargetDepth : Q * Q     (* size of the depth target *)
}.

Inductive Pass : Type :=
| RenderPass (scene camera : ObjId)
| Bokeh
| UnrealBloom.

Record EffectComposer : Type := mkComposer {
  passes : list Pass;
  size : Q * Q
}.

(** The result handed to the load callback. *)
Record GLTF : Type := mkGLTF {
  scene : ObjId;
  animations : list nat
}.

Record GLTFExample : Type := mkGltf {
  base : Example.Example;
  _clock : Clock;
  _mixer : option AnimationMixer;
  _composer : EffectComposer;
  _bokeh : option BokehPass;
  _lights : list ObjId
}.

Definition set_base (b : Example.Example) (g : GLTFExample) :=
  mkGltf b (_clock g) (_mixer g) (_composer g) (_bokeh g) (_lights g).

Definition set_clock (c : Clock) (g : GLTFExample) :=
  mkGltf (base g) c (_mixer g) (_composer g) (_bokeh g) (_lights g).

Definition set_mixer (m : option AnimationMixer) (g : GLTFExample) :=
  mkGltf (base g) (_clock g) m (_composer g) (_bokeh g) (_lights g).

Definition set_composer (c : EffectComposer) (g : GLTFExample) :=
  mkGltf (base g) (_clock g) (_mixer g) c (_bokeh g) (_lights g).

Definition set_bokeh (b : option BokehPass) (g : GLTFExample) :=
  mkGltf (base g) (_clock g) (_mixer g) (_composer g) b (_lights g).

Definition set_lights (l : list ObjId) (g : GLTFExample) :=
  mkGltf (base g) (_clock g) (_mixer g) (_composer g) (_bokeh g) l.

Definition addPass (p : Pass) (c : EffectComposer) : EffectComposer :=
  mkComposer (passes c ++ [p]) (size c).

(** [window] is (innerWidth, innerHeight) when the constructor runs. *)
Definition constructor (window : Q * Q) : M World GLTFExample :=
  b <- Example.constructor ;;
  let clock := mkClock false 0 in
  let composer := mkComposer [] window in
  (* lights *)
  directionalLight <- new_object KLight ;;
  pointLight <- new_object KLight ;;
  update_object (Example._scene b) (set_background (Some (BgColor 0xdce2c8))) ;;
  (* post processing *)
  let composer := addPass (RenderPass (Example._scene b) (Example._cam b)) composer in
  let bokeh := mkBokeh window in
  let composer := addPass Bokeh composer in
  let composer := addPass UnrealBloom composer in
  ret (mkGltf b clock None composer (Some bokeh) [directionalLight; pointLight]).

(** The callback given to [loader.load]. *)
Definition on_load (elm : GLTF) : M (GLTFExample * World) unit :=
  set_this (set_mixer (Some (mkMixer (scene elm) 0 []))) ;;
  match animations elm !! O with
  | Some clip =>
      set_this (set_mixer (Some (mkMixer (scene elm) 0 [clip])))
  | None => raise TypeError     (* clipAction(undefined) *)
  end ;;
  g <- this ;;
  world (add (Example._scene (base g)) (scene elm)).

Definition initialize : M (GLTFExample * World) unit :=
  super base set_base Example.initialize ;;
  world (start_load GltfLoad) ;;
  g <- this ;;
  for_each (_lights g) (fun elm => world (add (Example._scene (base g)) elm)).

(** The body of the traversal callback in [destroy]. *)
Definition dispose_mesh (child : ObjId) : M (GLTFExample * World) unit :=
  s <- get ;;
  match heap (snd s) !! child with
  | Some (mkObject3D (KMesh geometry material) _ _ _ _ _ _ _) =>
      world (dispose geometry) ;;
      for_each material (fun mat => world (dispose mat))
  | _ => ret tt
  end.

Definition destroy : M (GLTFExample * World) unit :=
  super base set_base Example.destroy ;;
  g <- this ;;
  traverse (Example._scene (base g)) dispose_mesh ;;
  world (clear (Example._scene (base g))).

Definition render : M (GLTFExample * World) unit :=
  world (call ComposerRender).

(** [Clock.getDelta] at time [now]. *)
Definition getDelta (now : Q) : M (GLTFExample * World) Q :=
  g <- this ;;
  if running (_clock g) then
    set_this (set_clock (mkClock true now)) ;;
    ret (now - oldTime (_clock g))
  else
    set_this (set_clock (mkClock true now)) ;;
    ret 0.

Definition update (now : Q) : M (GLTFExample * World) unit :=
  delta <- getDelta now ;;
  g <- this ;;
  match _mixer g with
  | Some mixer =>
      world (call (MixerUpdate delta)) ;;
      set_this (set_mixer (Some (mkMixer (mixer_root mixer)
                                         (mixer_time mixer + delta)
                                         (playing mixer))))
  | None => ret tt
  end ;;
  world (renderer_render (Example._scene (base g)) (Example._cam (base g))).

Definition resize (w h : Q) : M (GLTFExample * World) unit :=
  super base set_base (Example.resize w h) ;;
  g <- this ;;
  match _bokeh g with
  | Some bokeh =>
      world (call (DepthTargetSetSize w h)) ;;
      set_this (set_bokeh (Some (mkBokeh (w, h))))
  | None => ret tt
  end ;;
  world (call (ComposerSetSize w h)) ;;
  set_this (fun g => set_composer (mkComposer (passes (_composer g)) (w, h)) g).

(** The loader delivers the decoded file to the callback. *)
Definition load_completes (f : File) : M (GLTFExample * World) unit :=
  world (settle_load GltfLoad) ;;
  root <- world (decode f) ;;
  on_load (mkGLTF root (file_animations f)).

(** The calls of one display frame. *)
Inductive Frame : Type :=
| Update (now : Q)
| Render.

Definition frame (f : Frame) : M (GLTFExample * World) unit :=
  match f with
  | Update now => update now
  | Render => render
  end.

Definition is_mixer_update (c : Call) : bool :=
  match c with MixerUpdate _ => true | _ => false end.

Definition fresh (window : Q * Q) : GLTFExample * World :=
  construct (constructor window)
    (mkGltf (Example.mkExample O O Example.Uninitialized)
            (mkClock false 0) None (mkComposer [] window) None []).

End Gltf.

(** ** [texture-example.ts] *)

Module Texture.

(** [THREE.LoadingManager]: [onLoad] holds whether the example has assigned
    its handler. *)
Record LoadingManager : Type := mkManager {
  itemsTotal : nat;
  itemsLoaded : nat;
  onLoad : bool
}.

(** The class has no fields of its own; [loadManager], [material] and
    [hdrCubemap] are the locals of [initialize] that its callbacks capture. *)
Record TextureExample : Type := mkTexture {
  base : Example.Example;
  loadManager : LoadingManager;
  material : option ResId;
  hdrCubemap : option ResId
}.

Definition set_base (b : Example.Example) (t : TextureExample) :=
  mkTexture b (loadManager t) (material t) (hdrCubemap t).

Definition set_loadManager (m : LoadingManager) (t : TextureExample) :=
  mkTexture (base t) m (material t) (hdrCubemap t).

Definition set_material (m : option ResId) (t : TextureExample) :=
  mkTexture (base t) (loadManager t) m (hdrCubemap t).

Definition set_hdrCubemap (c : option ResId) (t : TextureExample) :=
  mkTexture (base t) (loadManager t) (material t) c.

Definition constructor : M World TextureExample :=
  b <- Example.constructor ;;
  ret (mkTexture b (mkManager 0 0 false) None None).

(** [textureLoader.load(url)]: the texture object exists at once, the
    manager counts the item, the image arrives later. *)
Definition textureLoader_load (i : nat) : M (TextureExample * World) ResId :=
  texture <- world (new_resource Three.Texture) ;;
  set_this (fun t => set_loadManager
                       (mkManager (S (itemsTotal (loadManager t)))
                                  (itemsLoaded (loadManager t))
                                  (onLoad (loadManager t))) t) ;;
  world (start_load (TextureLoad i)) ;;
  ret texture.

Definition initialize : M (TextureExample * World) unit :=
  super base set_base Example.initialize ;;
  t <- this ;;
  let scene := Example._scene (base t) in
  set_this (set_loadManager (mkManager 0 0 false)) ;;
  albedo <- textureLoader_load 0 ;;
  normal <- textureLoader_load 1 ;;
  metallic <- textureLoader_load 2 ;;
  roughness <- textureLoader_load 3 ;;
  material_ <- world (new_resource Three.Material) ;;
  set_this (set_material (Some material_)) ;;
  set_this (fun t => set_loadManager
                       (mkManager (itemsTotal (loadManager t))
                                  (itemsLoaded (loadManager t)) true) t) ;;
  (* the directional light *)
  directionalLight <- world (new_object KLight) ;;
  world (update_object directionalLight (set_castShadow true)) ;;
  world (add scene directionalLight) ;;
  (* the plane that shows the shadow *)
  geometry <- world (new_resource Three.Geometry) ;;
  shadowMaterial <- world (new_resource Three.Material) ;;
  plane <- world (new_object (KMesh geometry [shadowMaterial])) ;;
  world (update_object plane (set_receiveShadow true)) ;;
  world (add scene plane) ;;
  (* environment *)
  cubemap <- world (new_resource Three.Texture) ;;
  world (start_load CubemapLoad) ;;
  set_this (set_hdrCubemap (Some cubemap)) ;;
  world (update_object scene (set_background (Some (BgTexture cubemap)))).

Definition destroy : M (TextureExample * World) unit :=
  super base set_base Example.destroy.
  (* @todo *)

Definition update : M (TextureExample * World) unit :=
  ret tt.
  (* @todo *)

(** [render] and [resize] are inherited. *)
Definition render : M (TextureExample * World) unit :=
  super base set_base Example.render.

Definition resize (w h : Q) : M (TextureExample * World) unit :=
  super base set_base (Example.resize w h).

(** The traversal callback of the OBJ load callback. *)
Definition apply_material (m : ResId) (elm : ObjId)
  : M (TextureExample * World) unit :=
  s <- get ;;
  match heap (snd s) !! elm with
  | Some o =>
      if isMesh o then
        world (update_object elm (set_castShadow true)) ;;
        world (update_object elm (Three.set_material m))
      else ret tt
  | None => ret tt
  end.

(** The success callback given to [loader.load]. *)
Definition on_obj_load (obj : ObjId) : M (TextureExample * World) unit :=
  t <- this ;;
  match material t with
  | Some m => traverse obj (apply_material m)
  | None => ret tt       (* no callback exists before [initialize] *)
  end ;;
  world (add (Example._scene (base t)) obj).

(** [loadManager.onLoad] *)
Definition manager_onLoad : M (TextureExample * World) unit :=
  world (start_load ObjLoad).

(** [LoadingManager.itemEnd], called by the image loader when a load ends,
    with the image or with an error. *)
Definition itemEnd : M (TextureExample * World) unit :=
  set_this (fun t => set_loadManager
                       (mkManager (itemsTotal (loadManager t))
                                  (S (itemsLoaded (loadManager t)))
                                  (onLoad (loadManager t))) t) ;;
  world (call ConsoleLog) ;;                      (* onProgress *)
  t <- this ;;
  if decide (itemsLoaded (loadManager t) = itemsTotal (loadManager t)) then
    if onLoad (loadManager t) then manager_onLoad else ret tt
  else ret tt.

(** The outcomes the loaders deliver. *)
Definition texture_settles (i : nat) : M (TextureExample * World) unit :=
  world (settle_load (TextureLoad i)) ;;
  itemEnd.

Definition obj_loads (f : File) : M (TextureExample * World) unit :=
  world (settle_load ObjLoad) ;;
  obj <- world (decode f) ;;
  on_obj_load obj.

Definition obj_fails : M (TextureExample * World) unit :=
  world (settle_load ObjLoad) ;;
  world (call ConsoleLog).

Definition cubemap_loads : M (TextureExample * World) unit :=
  world (settle_load CubemapLoad) ;;
  t <- this ;;
  target <- world (new_resource Three.Texture) ;;
  world (update_object (Example._scene (base t)) (set_environment (Some target))).

Definition fresh : TextureExample * World :=
  construct constructor
    (mkTexture (Example.mkExample O O Example.Uninitialized)
               (mkManager 0 0 false) None None).

(** Executions: the host calls the methods in any order once the instance
    is initialised, and each load in flight delivers its outcome once. *)
Inductive Event : Type :=
| Update
| Render
| Resize (w h : Q)
| Destroy
| TextureSettles (i : nat)
| ObjLoads (f : File)
| ObjFails
| CubemapLoads.

Definition handle (e : Event) : M (TextureExample * World) unit :=
  match e with
  | Update => update
  | Render => render
  | Resize w h => resize w h
  | Destroy => destroy
  | TextureSettles i => texture_settles i
  | ObjLoads f => obj_loads f
  | ObjFails => obj_fails
  | CubemapLoads => cubemap_loads
  end.

Definition enabled (e : Event) (s : TextureExample * World) : Prop :=
  match e with
  | TextureSettles i => TextureLoad i ∈ loading (snd s)
  | ObjLoads _ | ObjFails => ObjLoad ∈ loading (snd s)
  | CubemapLoads => CubemapLoad ∈ loading (snd s)
  | _ => True
  end.

Inductive reachable : TextureExample * World -> Prop :=
| reach_initialized : reachable (exec initialize fresh)
| reach_step s e :
    reachable s -> enabled e s -> reachable (exec (handle e) s).

Definition materials (o : Object3D) : list ResId :=
  match kind o with
  | KMesh _ ms => ms
  | _ => []
  end.

(** Some mesh in the store carries the composed material. *)
Definition applied (s : TextureExample * World) : Prop :=
  exists m id o,
    material (fst s) = Some m /\ heap (snd s) !! id = Some o /\
    isMesh o = true /\ m ∈ materials o.

(** The five loads the material waits for. *)
Definition barrier : list Load :=
  [TextureLoad 0; TextureLoad 1; TextureLoad 2; TextureLoad 3; ObjLoad].

Definition is_texture (l : Load) : bool :=
  match l with TextureLoad _ => true | _ => false end.

(** What holds in every state of an execution: the manager counts the
    texture loads that are no longer in flight, the model load exists only
    once the count is complete, and until the model load has delivered its
    outcome no object carries the composed material (resource 4). *)
Definition barrier_inv (s : TextureExample * World) : Prop :=
  material (fst s) = Some 4%nat /\
  itemsTotal (loadManager (fst s)) = 4%nat /\
  onLoad (loadManager (fst s)) = true /\
  NoDup (loading (snd s)) /\
  (forall i, TextureLoad i ∈ loading (snd s) -> (i < 4)%nat) /\
  (forall i, (i < 4)%nat ->
             TextureLoad i ∈ loading (snd s) \/ TextureLoad i ∈ settled (snd s)) /\
  (itemsLoaded (loadManager (fst s))
   + length (filter is_texture (loading (snd s))) = 4)%nat /\
  (ObjLoad ∈ loading (snd s) \/ ObjLoad ∈ settled (snd s) ->
   itemsLoaded (loadManager (fst s)) = 4%nat) /\
  (ObjLoad ∈ settled (snd s) -> ObjLoad ∉ loading (snd s)) /\
  (ObjLoad ∉ settled (snd s) ->
   Forall (fun o => 4%nat ∉ materials o) (heap (snd s))).

End Texture.

(** A model file used in the examples: a group of two meshes that share one
    material, the second with an empty group under it, and one clip. *)
Definition tokyo : File :=
  mkFile [Geometry; Material; Geometry]
         (ANode AGroup [ANode (AMesh 0 [1%nat]) [];
                        ANode (AMesh 2 [1%nat]) [ANode AGroup []]])
         [O].

(** ** Vocabulary of the further properties *)

(** What [destroy] of the glTF example disposes when its traversal visits
    object [id]: geometry, then materials, of a mesh; nothing otherwise. *)
Definition mesh_resources (h : list Object3D) (id : nat) : list nat :=
  match h !! id with
  | Some o =>
      match kind o with
      | KMesh geometry material => geometry :: material
      | _ => []
      end
  | None => []
  end.

#[global] Instance Body_eq_dec : EqDecision Planets.Body.
Proof. solve_decision. Defined.

(** The angle [update] turns body [b] by over the events [es] when its
    velocity holder starts at [v]: each [update] adds the velocity the panel
    wrote last. *)
Fixpoint turned (b : Planets.Body) (v : Q) (es : list Planets.Event) : Q :=
  match es with
  | [] => 0
  | Planets.Update _ _ :: rest => v + turned b v rest
  | Planets.Render :: rest => turned b v rest
  | Planets.Tune b' v' :: rest =>
      turned b (if decide (b' = b) then v' else v) rest
  end.

(** The time of the last [update] among the frames [fs], or [t] when there
    is none, and the number of [update] calls. *)
Fixpoint last_now (t : Q) (fs : list Gltf.Frame) : Q :=
  match fs with
  | [] => t
  | Gltf.Update now :: rest => last_now now rest
  | Gltf.Render :: rest => last_now t rest
  end.

Fixpoint frame_updates (fs : list Gltf.Frame) : nat :=
  match fs with
  | [] => O
  | Gltf.Update _ :: rest => Datatypes.S (frame_updates rest)
  | Gltf.Render :: rest => frame_updates rest
  end.

(** What the traversal callback of the OBJ load makes of an object. *)
Definition dress (m : nat) (o : Object3D) : Object3D :=
  if isMesh o then Three.set_material m (set_castShadow true o) else o.

(** Each load has delivered at most one outcome and is then no longer in
    flight; once the manager has counted four items the model load has
    been started. *)
Definition loads_inv (s : Texture.TextureExample * World) : Prop :=
  NoDup (settled (snd s)) /\
  (forall x, x ∈ settled (snd s) -> x ∉ loading (snd s)) /\
  (Texture.itemsLoaded (Texture.loadManager (fst s)) = 4%nat ->
   ObjLoad ∈ loading (snd s) \/ ObjLoad ∈ settled (snd s)).

(** The scene of the texture example shows the cubemap as background, and
    has an environment exactly when the cubemap load has delivered. *)
Definition env_inv (s : Texture.TextureExample * World) : Prop :=
  Example._scene (Texture.base (fst s)) = O /\
  exists c o,
    Texture.hdrCubemap (fst s) = Some c /\
    heap (snd s) !! O = Some o /\
    background o = Some (BgTexture c) /\
    (is_Some (environment o) <-> CubemapLoad ∈ settled (snd s)).

(** The number of objects a decoded tree consists of, and where the loader
    puts the parts of a node whose first part goes to position [r]. *)
Fixpoint size (a : Asset) : nat :=
  match a with
  | ANode _ parts => Datatypes.S (foldr (fun p n => (size p + n)%nat) O parts)
  end.

Definition sizes (parts : list Asset) : nat :=
  foldr (fun p n => (size p + n)%nat) O parts.

Fixpoint starts (r : nat) (parts : list Asset) : list nat :=
  match parts with
  | [] => []
  | c :: rest => r :: starts (r + size c) rest
  end.

(** The objects of the tree [a] sit in the store [h] from position [r] on,
    in the order the loader builds them, each with the kind the file gives
    it (resources shifted by [off]) and with its parts as children. *)
Fixpoint laid (h : list Object3D) (off r : nat) (a : Asset) : Prop :=
  match a with
  | ANode k parts =>
      (exists o, h !! r = Some o /\ kind o = asset_kind off k /\
                 children o = starts (Datatypes.S r) parts) /\
      (fix go (r : nat) (l : list Asset) : Prop :=
         match l with
         | [] => True
         | c :: rest => laid h off r c /\ go (r + size c)%nat rest
         end) (Datatypes.S r) parts
  end.

Fixpoint laid_parts (h : list Object3D) (off r : nat) (l : list Asset) : Prop :=
  match l with
  | [] => True
  | c :: rest => laid h off r c /\ laid_parts h off (r + size c) rest
  end.

(** The geometry and the materials the meshes of a tree refer to, mesh by
    mesh in the order the loader builds them; a resource that several meshes
    share is listed once for each. *)
Fixpoint asset_resources (off : nat) (a : Asset) : list nat :=
  match a with
  | ANode k parts =>
      match asset_kind off k with
      | KMesh geometry material => geometry :: material
      | _ => []
      end ++ flat_map (asset_resources off) parts
  end.






(*VOCAB*)
(** * Properties *)

(** ** The model on small runs *)

(** After [initialize] the scene of the planets example holds the sun and the
    two orbits; the light, the Earth and Mars hang under the sun. *)
Example planets_scene_after_initialize :
  let s := exec Planets.initialize Planets.fresh in
  children_of (heap (snd s)) 0 = [2; 5; 7]%nat /\
  children_of (heap (snd s)) 2 = [3; 4; 6]%nat /\
  Planets.disposableMaterial (fst s) = [0; 1; 3; 7]%nat /\
  Planets.disposableGeometry (fst s) = [2; 4; 5; 6; 8; 9; 10]%nat.
Proof. vm_compute. repeat split. Qed.

(** A traversal from the scene root of the glTF example with its model
    attached reaches the two lights and the four objects of the model. *)
Example gltf_traversal_reaches_the_model :
  let s := exec (Gltf.initialize ;; Gltf.load_completes tokyo)
                (Gltf.fresh (1024, 768)) in
  traverse_order (length (heap (snd s))) (heap (snd s)) 0
  = [0; 2; 3; 4; 5; 6; 7]%nat.
Proof. reflexivity. Qed.

(** The four texture outcomes, in any order, start the model load; the model
    callback then gives both meshes of the file the composed material. *)
Example texture_loads_in_order :
  let s3 := exec (Texture.initialize ;; Texture.texture_settles 3 ;;
                  Texture.texture_settles 0 ;; Texture.texture_settles 2)
                 Texture.fresh in
  let s4 := exec (Texture.texture_settles 1) s3 in
  let s5 := exec (Texture.obj_loads tokyo) s4 in
  loading (snd s3) = [TextureLoad 1; CubemapLoad] /\
  loading (snd s4) = [CubemapLoad; ObjLoad] /\
  loading (snd s5) = [CubemapLoad] /\
  (kind <$> heap (snd s5) !! 5%nat) = Some (KMesh 8 [4%nat]) /\
  (kind <$> heap (snd s5) !! 6%nat) = Some (KMesh 10 [4%nat]).
Proof. vm_compute. repeat split. Qed.

Section MonadFacts.
Context {S : Type}.

Lemma for_each_cons {A} (x : A) xs (body : A -> M S unit) s :
  fst (body x s) = Done tt ->
  for_each (x :: xs) body s = for_each xs body (exec (body x) s).
Proof. intros H. simpl. unfold bind, exec. now rewrite H. Qed.

End MonadFacts.

(** ** The glTF example without its model *)

Lemma gltf_update_without_mixer now (s : Gltf.GLTFExample * World) :
  Gltf._mixer (fst s) = None ->
  fst (Gltf.update now s) = Done tt /\
  Gltf._mixer (fst (exec (Gltf.update now) s)) = None /\
  Gltf.base (fst (exec (Gltf.update now) s)) = Gltf.base (fst s) /\
  heap (snd (exec (Gltf.update now) s)) = heap (snd s) /\
  calls (snd (exec (Gltf.update now) s)) =
    calls (snd s) ++ [RendererRender (Example._scene (Gltf.base (fst s)))
                                     (Example._cam (Gltf.base (fst s)))].
Proof.
  destruct s as [g w]. simpl. intros Hm.
  unfold Gltf.update, Gltf.getDelta, exec, bind. simpl.
  destruct (Gltf.running (Gltf._clock g)); simpl; rewrite Hm; simpl; auto.
Qed.

Lemma gltf_frames_without_mixer fs : forall (s : Gltf.GLTFExample * World),
  Gltf._mixer (fst s) = None ->
  fst (for_each fs Gltf.frame s) = Done tt /\
  Gltf._mixer (fst (exec (for_each fs Gltf.frame) s)) = None /\
  heap (snd (exec (for_each fs Gltf.frame) s)) = heap (snd s) /\
  filter Gltf.is_mixer_update (calls (snd (exec (for_each fs Gltf.frame) s)))
    = filter Gltf.is_mixer_update (calls (snd s)).
Proof.
  induction fs as [|f fs IH]; intros s Hm.
  - simpl. auto.
  - assert (Hf : fst (Gltf.frame f s) = Done tt /\
                 Gltf._mixer (fst (exec (Gltf.frame f) s)) = None /\
                 heap (snd (exec (Gltf.frame f) s)) = heap (snd s) /\
                 filter Gltf.is_mixer_update (calls (snd (exec (Gltf.frame f) s)))
                 = filter Gltf.is_mixer_update (calls (snd s))).
    { destruct f as [now|].
      - destruct (gltf_update_without_mixer now s Hm) as (H1 & H2 & _ & H3 & H4).
        simpl. repeat split; auto. rewrite H4, filter_app. simpl.
        now rewrite app_nil_r.
      - simpl. unfold Gltf.render, exec. simpl. repeat split; auto.
        rewrite filter_app. simpl. now rewrite app_nil_r. }
    destruct Hf as (H1 & H2 & H3 & H4).
    unfold exec. rewrite (for_each_cons f fs Gltf.frame s H1).
    destruct (IH _ H2) as (I1 & I2 & I3 & I4). unfold exec in *.
    repeat split; auto; congruence.
Qed.

(** C6: while the model load of the glTF example has not completed, any
    sequence of [update] and [render] calls after [initialize] runs to its end
    without raising, never calls [AnimationMixer.update], and leaves every
    object of the scene graph as [initialize] left it; the load is still in
    flight. *)
Theorem gltf_frames_while_model_pending (window : Q * Q) (fs : list Gltf.Frame) :
  let s0 := exec Gltf.initialize (Gltf.fresh window) in
  let s := exec (for_each fs Gltf.frame) s0 in
  returns (for_each fs Gltf.frame) s0 /\
  (forall c, c ∈ calls (snd s) -> Gltf.is_mixer_update c = false) /\
  Gltf._mixer (fst s) = None /\
  heap (snd s) = heap (snd s0) /\
  GltfLoad ∈ loading (snd s0).
Proof.
  intros s0 s.
  assert (Hm : Gltf._mixer (fst s0) = None) by reflexivity.
  destruct (gltf_frames_without_mixer fs s0 Hm) as (H1 & H2 & H3 & H4).
  split; [now exists tt|].
  split; [|split; [exact H2|split; [exact H3|]]].
  - intros c Hc. destruct (Gltf.is_mixer_update c) eqn:E; [|reflexivity].
    assert (Hin : c ∈ filter Gltf.is_mixer_update (calls (snd s))).
    { apply list_elem_of_filter. split; [now rewrite E|exact Hc]. }
    fold s in H4. rewrite H4 in Hin. simpl in Hin. inversion Hin.
  - simpl. apply list_elem_of_here.
Qed.

(** C3 (what the code does): one frame tick of the glTF example, [update]
    followed by [render], returns and hands the scene to
    [WebGLRenderer.render] once before the composer runs: the direct render
    count goes up by one and the composer render is the last call.  On the
    freshly initialised example the two calls of the tick are exactly the
    direct render and the composer render. *)
Theorem gltf_frame_tick_renders_directly (now : Q) (s : Gltf.GLTFExample * World) :
  let tick := (Gltf.update now ;; Gltf.render)%monad in
  returns tick s /\
  direct_renders (snd (exec tick s)) = Datatypes.S (direct_renders (snd s)) /\
  last (calls (snd (exec tick s))) = Some ComposerRender /\
  calls (snd (exec tick (exec Gltf.initialize (Gltf.fresh (1024, 768))))) =
    [RendererRender 0 1; ComposerRender].
Proof.
  destruct s as [g w]. simpl.
  unfold returns, exec, direct_renders, Gltf.update, Gltf.getDelta, Gltf.render, bind.
  simpl.
  destruct (Gltf.running (Gltf._clock g)); simpl;
    destruct (Gltf._mixer g); simpl;
    (split; [now exists tt|]);
    rewrite ?omap_app, ?length_app, ?last_snoc; simpl;
    (split; [lia|split; reflexivity]).
Qed.

(** C8: [resize] of the glTF example returns in every state, the freshly
    constructed one included.  It calls the default resize, then resizes the
    depth target of the bokeh pass only when that pass exists, then the
    composer. *)
Theorem gltf_resize_never_raises (window : Q * Q) (w h : Q)
        (s : Gltf.GLTFExample * World) :
  returns (Gltf.resize 800 600) (Gltf.fresh window) /\
  returns (Gltf.resize w h) s /\
  calls (snd (exec (Gltf.resize w h) s)) =
    calls (snd s) ++ [SurfaceResize w h]
      ++ match Gltf._bokeh (fst s) with
         | Some _ => [DepthTargetSetSize w h]
         | None => []
         end
      ++ [ComposerSetSize w h].
Proof.
  split; [now exists tt|].
  destruct s as [g wd]. unfold returns, exec, Gltf.resize, bind. simpl.
  destruct (Gltf._bokeh g); simpl; (split; [now exists tt|]);
    rewrite <- ?app_assoc; reflexivity.
Qed.

(** C10: [update] of the texture example returns at once and leaves the
    instance and the whole three.js world, renderer calls included, as they
    were, in every state. *)
Theorem texture_update_is_noop (s : Texture.TextureExample * World) :
  Texture.update s = (Done tt, s).
Proof. reflexivity. Qed.

(** ** Disposal and clearing *)

Lemma planets_destroy_disposes_each_once :
  let s := exec (Planets.initialize ;; Planets.destroy) Planets.fresh in
  length (resources (snd s)) = 11%nat /\
  Forall (fun r => dispose_count r (snd s) = 1%nat) (seq 0 11).
Proof. vm_compute. split; [reflexivity|]. repeat constructor. Qed.

Lemma planets_destroy_clears_scene :
  let s := exec (Planets.initialize ;; Planets.destroy) Planets.fresh in
  children_of (heap (snd s)) (Example._scene (Planets.base (fst s))) = [].
Proof. reflexivity. Qed.

Lemma gltf_destroy_clears_scene (window : Q * Q) :
  let s := exec (Gltf.initialize ;; Gltf.destroy) (Gltf.fresh window) in
  children_of (heap (snd s)) (Example._scene (Gltf.base (fst s))) = [].
Proof. reflexivity. Qed.

Lemma gltf_destroy_disposes_shared_material_twice :
  let s := exec (Gltf.initialize ;; Gltf.load_completes tokyo ;; Gltf.destroy)
                (Gltf.fresh (1024, 768)) in
  resources (snd s) = [Geometry; Material; Geometry] /\
  disposed (snd s) = [0; 1; 2; 1]%nat /\
  dispose_count 1 (snd s) = 2%nat.
Proof. vm_compute. repeat split. Qed.

(** C1 (what the code does): [destroy] of the texture example calls
    [dispose] on nothing, in any state.  After [initialize] and [destroy] the
    plane geometry (resource 5), the composed material (4) and the shadow
    material (6) exist and none of them was disposed. *)
Theorem texture_destroy_disposes_nothing (s0 : Texture.TextureExample * World) :
  calls (snd (exec Texture.destroy s0)) = calls (snd s0) /\
  let s := exec (Texture.initialize ;; Texture.destroy) Texture.fresh in
  resources (snd s) !! 4%nat = Some Material /\
  resources (snd s) !! 5%nat = Some Geometry /\
  resources (snd s) !! 6%nat = Some Material /\
  dispose_count 4 (snd s) = O /\
  dispose_count 5 (snd s) = O /\
  dispose_count 6 (snd s) = O.
Proof. split; [reflexivity|]. vm_compute. repeat split. Qed.

(** C2 (what the code does): [destroy] of the texture example leaves the
    object store as it was, in any state.  After [initialize] and [destroy]
    the scene root still has its two children, the directional light and the
    shadow plane. *)
Theorem texture_destroy_keeps_children (s0 : Texture.TextureExample * World) :
  heap (snd (exec Texture.destroy s0)) = heap (snd s0) /\
  let s := exec (Texture.initialize ;; Texture.destroy) Texture.fresh in
  children_of (heap (snd s)) (Example._scene (Texture.base (fst s))) = [2; 3]%nat.
Proof. split; reflexivity. Qed.

(** ** The planets *)

Lemma planets_update_placed (delta elapsed : Q) (s : Planets.PlanetsExample * World) :
  Planets.sun (fst s) = Some 2%nat ->
  Planets.earth (fst s) = Some 4%nat ->
  Planets.mars (fst s) = Some 6%nat ->
  fst (Planets.update delta elapsed s) = Done tt /\
  fst (exec (Planets.update delta elapsed) s) = fst s /\
  forall b r,
    Planets.rotation b s = Some r ->
    Planets.rotation b (exec (Planets.update delta elapsed) s)
    = Some (r + Planets.velocity b (fst s)).
Proof.
  destruct s as [p w]. simpl. intros Hs He Hm.
  unfold Planets.update, exec, bind. simpl. rewrite He, Hs, Hm. simpl.
  split; [reflexivity|]. split; [reflexivity|].
  intros b r. unfold Planets.rotation. simpl.
  destruct b; simpl; rewrite ?Hs, ?He, ?Hm;
    repeat (rewrite list_lookup_alter_eq || rewrite list_lookup_alter_ne by lia);
    destruct (heap w !! _) as [o|]; simpl; intros [= <-]; reflexivity.
Qed.

Lemma planets_render_frame (s : Planets.PlanetsExample * World) :
  fst (Planets.render s) = Done tt /\
  fst (exec Planets.render s) = fst s /\
  heap (snd (exec Planets.render s)) = heap (snd s).
Proof.
  destruct s as [[[sc cam lc] ? ? ? ? ? ? ? ?] w]. unfold exec.
  unfold Planets.render, super, Example.render, bind. simpl.
  destruct lc; repeat split; reflexivity.
Qed.

Lemma planets_events (b : Planets.Body) (v : Q) (es : list Planets.Event) :
  forall (s : Planets.PlanetsExample * World) (r : Q),
    Forall (Planets.keeps b v) es ->
    Planets.sun (fst s) = Some 2%nat ->
    Planets.earth (fst s) = Some 4%nat ->
    Planets.mars (fst s) = Some 6%nat ->
    Planets.velocity b (fst s) == v ->
    Planets.rotation b s = Some r ->
    fst (for_each es Planets.handle s) = Done tt /\
    exists r',
      Planets.rotation b (exec (for_each es Planets.handle) s) = Some r' /\
      r' == r + inject_Z (Z.of_nat (Planets.updates es)) * v.
Proof.
  induction es as [|e es IH]; intros s r Hk Hs He Hm Hv Hr.
  - simpl. split; [reflexivity|]. exists r. split; [exact Hr|]. ring.
  - inversion Hk as [|e' es' Hke Hkes]; subst.
    destruct e as [delta elapsed| |b' v'].
    + destruct (planets_update_placed delta elapsed s Hs He Hm) as (H1 & H2 & H3).
      specialize (H3 b r Hr).
      unfold exec.
      rewrite (for_each_cons (Planets.Update delta elapsed) es Planets.handle s H1).
      destruct (IH (exec (Planets.update delta elapsed) s)
                   (r + Planets.velocity b (fst s)) Hkes) as (I1 & r' & I2 & I3);
        try (rewrite H2; assumption); [exact H3|].
      split; [exact I1|]. exists r'. split; [exact I2|].
      rewrite I3, Hv. cbn [Planets.updates].
      rewrite Nat2Z.inj_succ. unfold Z.succ. rewrite inject_Z_plus. ring.
    + destruct (planets_render_frame s) as (H1 & H2 & H3).
      unfold exec. rewrite (for_each_cons Planets.Render es Planets.handle s H1).
      destruct (IH (exec Planets.render s) r Hkes) as (I1 & r' & I2 & I3);
        try (rewrite H2; assumption).
      { unfold Planets.rotation. rewrite H2, H3. exact Hr. }
      split; [exact I1|]. exists r'. split; [exact I2|exact I3].
    + assert (H1 : fst (Planets.handle (Planets.Tune b' v') s) = Done tt) by reflexivity.
      unfold exec.
      rewrite (for_each_cons (Planets.Tune b' v') es Planets.handle s H1).
      destruct (IH (exec (Planets.handle (Planets.Tune b' v')) s) r Hkes)
        as (I1 & r' & I2 & I3).
      * destruct b'; exact Hs.
      * destruct b'; exact He.
      * destruct b'; exact Hm.
      * simpl in Hke. destruct s as [p w].
        destruct b, b'; simpl in *; try exact Hv; apply Hke; reflexivity.
      * destruct s as [p w]. unfold Planets.rotation in *.
        destruct b, b'; simpl in *; exact Hr.
      * split; [exact I1|]. exists r'. split; [exact I2|exact I3].
Qed.

(** C4: on the initialised planets example, whatever [update], [render] and
    debug-panel events follow, as long as the panel leaves the velocity of a
    body at [v], all calls return and the angle [update] has turned that body
    by is the number of [update] calls times [v]. *)
Theorem planets_rotation_is_updates_times_velocity
        (b : Planets.Body) (v : Q) (es : list Planets.Event) :
  Forall (Planets.keeps b v) es ->
  let s0 := exec (Planets.tune b v) (exec Planets.initialize Planets.fresh) in
  let s := exec (for_each es Planets.handle) s0 in
  returns (for_each es Planets.handle) s0 /\
  exists r, Planets.rotation b s = Some r /\
            r == inject_Z (Z.of_nat (Planets.updates es)) * v.
Proof.
  intros Hk s0 s.
  destruct (planets_events b v es s0 0 Hk) as (H1 & r & H2 & H3);
    try (destruct b; reflexivity).
  split; [now exists tt|]. exists r. split; [exact H2|].
  rewrite H3. ring.
Qed.

Lemma planets_rotation_is_updates_times_velocity_witness :
  let es := [Planets.Update 0 0; Planets.Render; Planets.Tune Planets.Earth 0.1;
             Planets.Update 0 0; Planets.Tune Planets.Sun 0.25; Planets.Update 0 0] in
  let s := exec (for_each es Planets.handle)
                (exec (Planets.tune Planets.Sun 0.25)
                      (exec Planets.initialize Planets.fresh)) in
  Forall (Planets.keeps Planets.Sun 0.25) es /\
  exists r, Planets.rotation Planets.Sun s = Some r /\ r == 3 * 0.25.
Proof.
  assert (Hk : Forall (Planets.keeps Planets.Sun 0.25)
                 [Planets.Update 0 0; Planets.Render; Planets.Tune Planets.Earth 0.1;
                  Planets.Update 0 0; Planets.Tune Planets.Sun 0.25;
                  Planets.Update 0 0]).
  { repeat constructor; simpl; intros; try discriminate; reflexivity. }
  split; [exact Hk|].
  exact (proj2 (planets_rotation_is_updates_times_velocity Planets.Sun 0.25 _ Hk)).
Defined.

(** ** Calls outside the initialised state *)

(** C9, refuted as stated: [update] of the planets example on the freshly
    constructed instance hands a frame to the renderer, and [update] after
    [initialize] and [destroy] still turns the sun by its velocity. *)
Lemma planets_update_misuse_is_not_noop :
  let s0 := Planets.fresh in
  let sd := exec (Planets.initialize ;; Planets.destroy) Planets.fresh in
  (calls (snd s0) = [] /\
   calls (snd (exec (Planets.update 0 0) s0)) = [RendererRender 0 1]) /\
  (Planets.rotation Planets.Sun sd = Some 0 /\
   Planets.rotation Planets.Sun (exec (Planets.update 0 0) sd) = Some 0.0015).
Proof. vm_compute. repeat split. Qed.

(** C9, amended: before [initialize], [update] of the planets example
    returns, turns no body and leaves the instance and every object as they
    were, but it hands one frame to the renderer; [update] of the glTF
    example returns, does not call the animation mixer and leaves every
    object as it was, but starts its clock and hands one frame to the
    renderer; [render] of the glTF example runs the composer. *)
Theorem update_before_initialize_still_renders
        (delta elapsed now : Q) (window : Q * Q) :
  let p0 := Planets.fresh in
  let p := exec (Planets.update delta elapsed) p0 in
  let g0 := Gltf.fresh window in
  let g := exec (Gltf.update now) g0 in
  (returns (Planets.update delta elapsed) p0 /\
   fst p = fst p0 /\ heap (snd p) = heap (snd p0) /\
   (forall b, Planets.rotation b p = None) /\
   calls (snd p) = [RendererRender 0 1]) /\
  (returns (Gltf.update now) g0 /\
   heap (snd g) = heap (snd g0) /\
   Gltf._mixer (fst g) = None /\
   Gltf._clock (fst g) = Gltf.mkClock true now /\
   calls (snd g) = [RendererRender 0 1]) /\
  calls (snd (exec Gltf.render g0)) = [ComposerRender].
Proof.
  simpl. repeat split; try (now exists tt). intros b. destruct b; reflexivity.
Qed.

(** ** What a decoded file adds to the store *)

Lemma Asset_parts_ind (P : Asset -> Prop) :
  (forall k parts, Forall P parts -> P (ANode k parts)) -> forall a, P a.
Proof.
  intros H. fix IH 1. intros [k parts]. apply H.
  revert parts. fix IHl 1. intros [|a parts]; constructor; [apply IH|apply IHl].
Qed.

Lemma add_orphan (p c : ObjId) (w : World) :
  parent_of (heap w) c = None ->
  add p c w =
    (Done tt,
     with_heap (alter (fun o => set_children (children o ++ [c]) o) p
                      (alter (set_parent (Some p)) c (heap w))) w).
Proof.
  intros H. unfold add, bind. simpl. rewrite H. simpl. destruct w; reflexivity.
Qed.

Lemma extends_refl_new (k : ObjKind) (w : World) :
  extends w (with_heap (heap w ++ [blank k]) w).
Proof.
  unfold extends. simpl. rewrite length_app. simpl.
  split; [lia|]. split.
  - intros j Hj. now apply lookup_app_l.
  - split; [|auto]. unfold parent_of.
    rewrite lookup_app_r by lia. now rewrite Nat.sub_diag.
Qed.

Lemma extends_add (w0 w w1 : World) :
  extends w0 w -> extends w w1 ->
  extends w0
    (with_heap
       (alter (fun o => set_children (children o ++ [length (heap w)]) o)
              (length (heap w0))
              (alter (set_parent (Some (length (heap w0)))) (length (heap w))
                     (heap w1))) w1).
Proof.
  intros (L0 & P0 & R0 & E0) (L1 & P1 & R1 & E1). unfold extends. simpl.
  rewrite !length_alter. split; [lia|]. split; [|split].
  - intros j Hj. rewrite !list_lookup_alter_ne by lia.
    rewrite P1 by lia. exact (P0 j Hj).
  - unfold parent_of in *. rewrite list_lookup_alter_eq.
    rewrite list_lookup_alter_ne by lia. rewrite P1 by lia.
    destruct (heap w !! length (heap w0)); simpl in *; auto.
  - destruct E0 as (? & ? & ? & ?), E1 as (? & ? & ? & ?).
    repeat split; congruence.
Qed.

Lemma build_extends (off : nat) (parts : list Asset) :
  Forall (fun a => forall off w,
            fst (instantiate off a w) = Done (length (heap w)) /\
            extends w (snd (instantiate off a w))) parts ->
  forall w0 w,
    extends w0 w ->
    fst (build (instantiate off) (length (heap w0)) parts w) = Done tt /\
    extends w0 (snd (build (instantiate off) (length (heap w0)) parts w)).
Proof.
  induction 1 as [|c parts Hc _ IH]; intros w0 w Hw.
  - simpl. auto.
  - destruct (Hc off w) as (Hid & Hext).
    assert (Hadd := add_orphan (length (heap w0)) (length (heap w))
                               (snd (instantiate off c w))).
    pose proof Hext as (L1 & P1 & R1 & E1).
    specialize (Hadd R1).
    assert (Heq : build (instantiate off) (length (heap w0)) (c :: parts) w
                  = build (instantiate off) (length (heap w0)) parts
                      (snd (add (length (heap w0)) (length (heap w))
                                (snd (instantiate off c w))))).
    { cbn [build]. unfold bind. rewrite Hid. rewrite Hadd. reflexivity. }
    rewrite Heq, Hadd. cbn [snd].
    apply IH. exact (extends_add w0 w _ Hw Hext).
Qed.

Lemma instantiate_extends (a : Asset) :
  forall off w,
    fst (instantiate off a w) = Done (length (heap w)) /\
    extends w (snd (instantiate off a w)).
Proof.
  induction a as [k parts IH] using Asset_parts_ind. intros off w.
  destruct (build_extends off parts IH w _ (extends_refl_new (asset_kind off k) w))
    as (Hb & He).
  cbn [instantiate]. unfold bind, new_object. cbn [fst snd].
  rewrite Hb. cbn [fst snd]. auto.
Qed.

Lemma decode_extends (f : File) (w : World) :
  fst (decode f w) = Done (length (heap w)) /\
  (length (heap w) < length (heap (snd (decode f w))))%nat /\
  (forall j, (j < length (heap w))%nat ->
             heap (snd (decode f w)) !! j = heap w !! j) /\
  parent_of (heap (snd (decode f w))) (length (heap w)) = None /\
  calls (snd (decode f w)) = calls w /\
  loading (snd (decode f w)) = loading w /\
  settled (snd (decode f w)) = settled w.
Proof.
  unfold decode, bind. simpl.
  destruct (instantiate_extends (file_root f) (length (resources w))
              (with_resources (resources w ++ file_resources f) w))
    as (H1 & L & P & R & _ & E).
  simpl in *. rewrite H1. tauto.
Qed.

(** ** Load callbacks *)

Lemma gltf_load_lands (f : File) (clip : nat) (s : Gltf.GLTFExample * World) :
  file_animations f !! O = Some clip ->
  (Example._scene (Gltf.base (fst s)) < length (heap (snd s)))%nat ->
  let s' := exec (Gltf.load_completes f) s in
  let root := length (heap (snd s)) in
  let scene := Example._scene (Gltf.base (fst s)) in
  fst (Gltf.load_completes f s) = Done tt /\
  Gltf._mixer (fst s') = Some (Gltf.mkMixer root 0 [clip]) /\
  Gltf.base (fst s') = Gltf.base (fst s) /\
  children_of (heap (snd s')) scene = children_of (heap (snd s)) scene ++ [root] /\
  parent_of (heap (snd s')) root = Some scene.
Proof.
  destruct s as [g w]. cbn [fst snd]. intros Hclip Hsc.
  set (w1 := snd (settle_load GltfLoad w)).
  destruct (decode_extends f w1) as (Hd & L & P & R & _).
  change (heap w1) with (heap w) in *.
  assert (Hadd := add_orphan (Example._scene (Gltf.base g)) (length (heap w))
                             (snd (decode f w1)) R).
  unfold exec, Gltf.load_completes, Gltf.on_load, bind, world, set_this, this, modify.
  cbn [fst snd]. fold w1. rewrite Hd. cbn [fst snd Gltf.animations Gltf.scene].
  rewrite Hclip. cbn [fst snd Gltf.base Gltf.set_mixer Gltf._mixer].
  rewrite Hadd. cbn [fst snd heap with_heap].
  split; [reflexivity|]. split; [reflexivity|]. split; [reflexivity|].
  unfold children_of, parent_of.
  change (fst (settle_load GltfLoad w)) with (@Done unit tt).
  cbn [fst snd heap with_heap].
  rewrite list_lookup_alter_eq, list_lookup_alter_ne by lia.
  rewrite (list_lookup_alter_ne _ _ (Example._scene (Gltf.base g))) by lia.
  rewrite list_lookup_alter_eq, (P _ Hsc).
  destruct (lookup_lt_is_Some_2 _ _ L) as [o Ho]. rewrite Ho.
  destruct (lookup_lt_is_Some_2 _ _ Hsc) as [o' Ho']. rewrite Ho'.
  split; reflexivity.
Qed.

Lemma same_shape_refl (w : World) : same_shape w w.
Proof. unfold same_shape. auto 10. Qed.

Lemma same_shape_trans (w1 w2 w3 : World) :
  same_shape w1 w2 -> same_shape w2 w3 -> same_shape w1 w3.
Proof.
  intros (L1 & C1 & P1 & R1 & K1 & Lo1 & S1) (L2 & C2 & P2 & R2 & K2 & Lo2 & S2).
  unfold same_shape. repeat split; congruence.
Qed.

Lemma same_shape_alter (f : Object3D -> Object3D) (id : nat) (w : World) :
  (forall o, children (f o) = children o /\ parent (f o) = parent o) ->
  same_shape w (with_heap (alter f id (heap w)) w).
Proof.
  intros Hf. unfold same_shape, children_of, parent_of. simpl.
  rewrite length_alter. repeat split; auto; intros j;
    (destruct (decide (id = j)) as [->|Hne];
     [rewrite list_lookup_alter_eq; destruct (heap w !! j) as [o|]; simpl; auto;
      apply Hf
     |now rewrite list_lookup_alter_ne]).
Qed.

Lemma children_of_add_orphan (h : list Object3D) (p c : nat) :
  (p < length h)%nat -> p <> c ->
  children_of (alter (fun o => set_children (children o ++ [c]) o) p
                     (alter (set_parent (Some p)) c h)) p
  = children_of h p ++ [c].
Proof.
  intros Hp Hne. unfold children_of.
  rewrite list_lookup_alter_eq, list_lookup_alter_ne by congruence.
  destruct (lookup_lt_is_Some_2 _ _ Hp) as [o Ho]. now rewrite Ho.
Qed.

Lemma parent_of_add_orphan (h : list Object3D) (p c : nat) :
  (c < length h)%nat -> p <> c ->
  parent_of (alter (fun o => set_children (children o ++ [c]) o) p
                   (alter (set_parent (Some p)) c h)) c
  = Some p.
Proof.
  intros Hc Hne. unfold parent_of.
  rewrite list_lookup_alter_ne, list_lookup_alter_eq by congruence.
  destruct (lookup_lt_is_Some_2 _ _ Hc) as [o Ho]. now rewrite Ho.
Qed.

Lemma apply_material_shape (m : nat) (ids : list nat) :
  forall (s : Texture.TextureExample * World),
    fst (for_each ids (Texture.apply_material m) s) = Done tt /\
    fst (exec (for_each ids (Texture.apply_material m)) s) = fst s /\
    same_shape (snd s) (snd (exec (for_each ids (Texture.apply_material m)) s)).
Proof.
  induction ids as [|id ids IH]; intros s.
  - simpl. auto using same_shape_refl.
  - assert (H : fst (Texture.apply_material m id s) = Done tt /\
                fst (exec (Texture.apply_material m id) s) = fst s /\
                same_shape (snd s) (snd (exec (Texture.apply_material m id) s))).
    { destruct s as [t w]. unfold exec, Texture.apply_material, bind. simpl.
      destruct (heap w !! id) as [o|]; simpl; auto using same_shape_refl.
      destruct (isMesh o); simpl; auto using same_shape_refl.
      split; [reflexivity|]. split; [reflexivity|].
      eapply same_shape_trans.
      - apply (same_shape_alter (set_castShadow true) id w). intros; auto.
      - apply (same_shape_alter (Three.set_material m) id). intros o'.
        unfold Three.set_material. destruct (kind o'); auto. }
    destruct H as (H1 & H2 & H3).
    unfold exec. rewrite (for_each_cons id ids (Texture.apply_material m) s H1).
    destruct (IH (exec (Texture.apply_material m id) s)) as (I1 & I2 & I3).
    unfold exec in *. split; [exact I1|]. split; [congruence|].
    eapply same_shape_trans; eassumption.
Qed.

Lemma texture_obj_lands (f : File) (s : Texture.TextureExample * World) :
  let s' := exec (Texture.obj_loads f) s in
  let root := length (heap (snd s)) in
  let scene := Example._scene (Texture.base (fst s)) in
  fst (Texture.obj_loads f s) = Done tt /\
  fst s' = fst s /\
  settled (snd s') = settled (snd s) ++ [ObjLoad] /\
  loading (snd s') = filter (fun x => x <> ObjLoad) (loading (snd s)) /\
  ((scene < length (heap (snd s)))%nat ->
   children_of (heap (snd s')) scene = children_of (heap (snd s)) scene ++ [root] /\
   parent_of (heap (snd s')) root = Some scene).
Proof.
  destruct s as [t w]. cbn [fst snd].
  set (w1 := snd (settle_load ObjLoad w)).
  destruct (decode_extends f w1) as (Hd & L & P & R & _ & Hlo & Hse).
  change (heap w1) with (heap w) in *.
  set (w2 := snd (decode f w1)) in *.
  set (root := length (heap w)) in *.
  set (ids := match Texture.material t with
              | Some m => traverse_order (length (heap w2)) (heap w2) root
              | None => []
              end).
  set (m := match Texture.material t with Some m => m | None => O end).
  destruct (apply_material_shape m ids (t, w2)) as (A1 & A2 & A3).
  set (s3 := exec (for_each ids (Texture.apply_material m)) (t, w2)) in *.
  cbn [fst snd] in A2, A3.
  destruct A3 as (AL & AC & AP & _ & _ & ALo & ASe).
  assert (Hadd := add_orphan (Example._scene (Texture.base t)) root (snd s3)).
  rewrite AP in Hadd. specialize (Hadd R).
  assert (Hrun : Texture.obj_loads f (t, w)
                 = (Done tt,
                    (t, snd (add (Example._scene (Texture.base t)) root (snd s3))))).
  { unfold Texture.obj_loads, Texture.on_obj_load, bind, world, this.
    cbn [fst snd]. fold w1. rewrite Hd. fold w2. cbn [fst snd].
    unfold traverse, bind, get. cbn [fst snd].
    subst s3 ids m. unfold exec in *.
    change (fst (settle_load ObjLoad w)) with (@Done unit tt). cbn iota.
    destruct (Texture.material t) as [m|]; cbn [fst snd] in *.
    - rewrite A1. cbn [fst snd]. rewrite Hadd. cbn [fst snd].
      rewrite A2. reflexivity.
    - cbn [for_each ret fst snd] in *. rewrite Hadd. reflexivity. }
  unfold exec. rewrite Hrun, Hadd. cbn [fst snd heap with_heap loading settled].
  split; [reflexivity|]. split; [reflexivity|].
  split; [now rewrite ASe, Hse|]. split; [now rewrite ALo, Hlo|].
  intros Hsc. split.
  - rewrite children_of_add_orphan by lia. rewrite AC.
    unfold children_of. now rewrite (P _ Hsc).
  - apply parent_of_add_orphan; lia.
Qed.

(** C7, refuted as stated: the glTF example is destroyed while its model
    load is in flight; the scene root is cleared and there is no mixer.  The
    completion callback that arrives afterwards puts the loaded model under
    the scene root and installs a mixer. *)
Lemma late_gltf_load_mutates_destroyed_demo :
  let sd := exec (Gltf.initialize ;; Gltf.destroy) (Gltf.fresh (1024, 768)) in
  let s := exec (Gltf.load_completes tokyo) sd in
  (Example.lifecycle (Gltf.base (fst sd)) = Example.Destroyed /\
   loading (snd sd) = [GltfLoad] /\
   children_of (heap (snd sd)) 0 = [] /\
   Gltf._mixer (fst sd) = None) /\
  (children_of (heap (snd s)) 0 = [4%nat] /\
   Gltf._mixer (fst s) = Some (Gltf.mkMixer 4 0 [O])).
Proof. vm_compute. repeat split. Qed.

(** C7, amended: no load callback looks at the lifecycle state.  When the
    glTF example is destroyed with its model load in flight, the late
    callback (for a file with at least one clip) returns, installs the mixer
    on the loaded model and adds the model as the only child of the cleared
    scene root.  When the texture example is destroyed with its texture loads
    in flight, the late texture outcomes still start the model load, and its
    callback returns and adds the loaded object under the scene root, next to
    the light and the plane that [destroy] left there. *)
Theorem late_load_callbacks_run_unguarded
        (window : Q * Q) (f : File) (clip : nat) :
  file_animations f !! O = Some clip ->
  let gd := exec (Gltf.initialize ;; Gltf.destroy) (Gltf.fresh window) in
  let g := exec (Gltf.load_completes f) gd in
  let td := exec (Texture.initialize ;; Texture.destroy ;;
                  Texture.texture_settles 0 ;; Texture.texture_settles 1 ;;
                  Texture.texture_settles 2 ;; Texture.texture_settles 3)
                 Texture.fresh in
  let t := exec (Texture.obj_loads f) td in
  (Example.lifecycle (Gltf.base (fst gd)) = Example.Destroyed /\
   GltfLoad ∈ loading (snd gd) /\
   returns (Gltf.load_completes f) gd /\
   Gltf._mixer (fst g) = Some (Gltf.mkMixer 4 0 [clip]) /\
   children_of (heap (snd g)) 0 = [4%nat] /\
   parent_of (heap (snd g)) 4 = Some O) /\
  (Example.lifecycle (Texture.base (fst td)) = Example.Destroyed /\
   ObjLoad ∈ loading (snd td) /\
   returns (Texture.obj_loads f) td /\
   children_of (heap (snd t)) 0 = [2; 3; 4]%nat /\
   parent_of (heap (snd t)) 4 = Some O).
Proof.
  intros Hclip gd g td t. split.
  - assert (Hsc : (Example._scene (Gltf.base (fst gd)) < length (heap (snd gd)))%nat)
      by (vm_compute; lia).
    destruct (gltf_load_lands f clip gd Hclip Hsc) as (H1 & H2 & _ & H4 & H5).
    fold g in H2, H4, H5.
    split; [reflexivity|]. split; [apply list_elem_of_here|].
    split; [now exists tt|]. split; [exact H2|]. split; [exact H4|exact H5].
  - assert (Hsc : (Example._scene (Texture.base (fst td)) < length (heap (snd td)))%nat)
      by (vm_compute; lia).
    destruct (texture_obj_lands f td) as (H1 & _ & _ & _ & H34).
    destruct (H34 Hsc) as (H3 & H4). fold t in H3, H4.
    split; [reflexivity|]. split.
    { vm_compute. apply list_elem_of_further, list_elem_of_here. }
    split; [now exists tt|]. split; [exact H3|exact H4].
Qed.

Lemma late_load_callbacks_run_unguarded_witness :
  file_animations tokyo !! O = Some O /\
  children_of
    (heap (snd (exec (Gltf.load_completes tokyo)
                     (exec (Gltf.initialize ;; Gltf.destroy)
                           (Gltf.fresh (1024, 768)))))) 0 = [4%nat].
Proof.
  split; [reflexivity|].
  exact (proj1 (proj2 (proj2 (proj2 (proj2 (proj1
    (late_load_callbacks_run_unguarded (1024, 768) tokyo O eq_refl))))))).
Defined.

(** ** The barrier of the texture example *)

Lemma filter_texture_without (x : Load) (l : list Load) :
  Texture.is_texture x = false ->
  filter Texture.is_texture (filter (fun y => y <> x) l)
  = filter Texture.is_texture l.
Proof.
  intros Hx. induction l as [|y l IH]; [reflexivity|].
  rewrite !filter_cons. destruct (decide (y <> x)) as [Hne|Heq].
  - rewrite filter_cons. destruct (decide (Texture.is_texture y)); now rewrite IH.
  - assert (y = x) as -> by (destruct (decide (y = x)); tauto).
    rewrite Hx. simpl. exact IH.
Qed.

Lemma filter_texture_remove (x : Load) (l : list Load) :
  NoDup l -> x ∈ l -> Texture.is_texture x = true ->
  Datatypes.S (length (filter Texture.is_texture (filter (fun y => y <> x) l)))
  = length (filter Texture.is_texture l).
Proof.
  intros Hnd Hin Hx. induction Hnd as [|y l Hy Hnd IH]; [inversion Hin|].
  rewrite !filter_cons. destruct (decide (y <> x)) as [Hne|Heq].
  - rewrite filter_cons.
    assert (Hin' : x ∈ l).
    { apply elem_of_cons in Hin as [Heq|H]; [now destruct Hne|exact H]. }
    destruct (decide (Texture.is_texture y)); simpl; rewrite <- (IH Hin'); reflexivity.
  - assert (y = x) as -> by (destruct (decide (y = x)); tauto).
    rewrite Hx. simpl. f_equal.
    assert (Hid : filter (fun y => y <> x) l = l).
    { clear IH Hin Hnd. induction l as [|z l IHl]; [reflexivity|].
      rewrite filter_cons. apply not_elem_of_cons in Hy as [Hz Hl].
      destruct (decide (z <> x)) as [?|Hn]; [now rewrite IHl|].
      destruct Hn. congruence. }
    now rewrite Hid.
Qed.

Lemma elem_of_without (x y : Load) (l : list Load) :
  y ∈ filter (fun z => z <> x) l <-> y <> x /\ y ∈ l.
Proof. apply (list_elem_of_filter (fun z => z <> x)). Qed.

Lemma texture_inv_initialized : Texture.barrier_inv (exec Texture.initialize Texture.fresh).
Proof.
  unfold Texture.barrier_inv. vm_compute loading. vm_compute settled.
  split; [reflexivity|]. split; [reflexivity|]. split; [reflexivity|].
  split; [|split; [|split; [|split; [|split; [|split]]]]].
  - repeat (constructor; [rewrite ?elem_of_cons, elem_of_nil; intuition discriminate|]).
    constructor.
  - intros i. rewrite !elem_of_cons, elem_of_nil.
    intros [[= ->]|[[= ->]|[[= ->]|[[= ->]|[[=]|[]]]]]]; lia.
  - intros i Hi. left. rewrite !elem_of_cons.
    destruct i as [|[|[|[|i]]]]; auto; lia.
  - reflexivity.
  - rewrite !elem_of_cons, !elem_of_nil. intuition discriminate.
  - rewrite elem_of_nil. tauto.
  - intros _. apply (bool_decide_unpack _). vm_compute. exact I.
Qed.

Lemma Forall_alter_keep {A} (P : A -> Prop) (f : A -> A) (i : nat) (l : list A) :
  (forall x, P x -> P (f x)) -> Forall P l -> Forall P (alter f i l).
Proof.
  intros Hf Hl. apply Forall_lookup. intros j x Hx.
  destruct (decide (i = j)) as [->|Hne].
  - rewrite list_lookup_alter_eq in Hx.
    destruct (l !! j) as [y|] eqn:Hy; [|discriminate].
    injection Hx as <-. apply Hf. exact (Forall_lookup_1 _ _ _ _ Hl Hy).
  - rewrite list_lookup_alter_ne in Hx by exact Hne.
    exact (Forall_lookup_1 _ _ _ _ Hl Hx).
Qed.

Lemma barrier_inv_ext (s s' : Texture.TextureExample * World) :
  Texture.material (fst s') = Texture.material (fst s) ->
  Texture.loadManager (fst s') = Texture.loadManager (fst s) ->
  loading (snd s') = loading (snd s) ->
  settled (snd s') = settled (snd s) ->
  heap (snd s') = heap (snd s) ->
  Texture.barrier_inv s -> Texture.barrier_inv s'.
Proof.
  unfold Texture.barrier_inv. intros -> -> -> -> ->. trivial.
Qed.

Lemma barrier_inv_settle_other (x : Load) (s s' : Texture.TextureExample * World) :
  Texture.is_texture x = false ->
  x ∈ loading (snd s) ->
  Texture.material (fst s') = Texture.material (fst s) ->
  Texture.loadManager (fst s') = Texture.loadManager (fst s) ->
  loading (snd s') = filter (fun y => y <> x) (loading (snd s)) ->
  settled (snd s') = settled (snd s) ++ [x] ->
  (ObjLoad ∉ settled (snd s') ->
   Forall (fun o => 4%nat ∉ Texture.materials o) (heap (snd s)) ->
   Forall (fun o => 4%nat ∉ Texture.materials o) (heap (snd s'))) ->
  Texture.barrier_inv s -> Texture.barrier_inv s'.
Proof.
  intros Hx Hin Em El Elo Ese Hheap (I1 & I2 & I3 & I4 & I5 & I6 & I7 & I8 & I9 & I10).
  unfold Texture.barrier_inv. rewrite Em, El, Elo, Ese.
  split; [exact I1|]. split; [exact I2|]. split; [exact I3|].
  split; [now apply NoDup_filter|].
  split; [intros i Hi; apply elem_of_without in Hi as [_ Hi]; now apply I5|].
  split.
  { intros i Hi. destruct (I6 i Hi) as [H|H].
    - left. apply elem_of_without. split; [|exact H].
      intros Heq. rewrite <- Heq in Hx. discriminate.
    - right. apply elem_of_app. now left. }
  split; [now rewrite filter_texture_without|].
  split.
  { intros [H|H].
    - apply elem_of_without in H as [_ H]. apply I8. now left.
    - apply elem_of_app in H as [H|H]; [apply I8; now right|].
      apply list_elem_of_singleton in H. subst x. apply I8. now left. }
  split.
  { intros H Hl. apply elem_of_without in Hl as [Hne Hl].
    apply elem_of_app in H as [H|H]; [exact (I9 H Hl)|].
    apply list_elem_of_singleton in H. congruence. }
  intros H. rewrite <- Ese in H. apply (Hheap H). apply I10.
  intros H'. apply H. rewrite Ese. apply elem_of_app. now left.
Qed.

Lemma barrier_inv_texture_settles (i : nat) (s : Texture.TextureExample * World) :
  TextureLoad i ∈ loading (snd s) ->
  Texture.barrier_inv s ->
  Texture.barrier_inv (exec (Texture.texture_settles i) s).
Proof.
  destruct s as [t w]. cbn [fst snd].
  intros Hin (I1 & I2 & I3 & I4 & I5 & I6 & I7 & I8 & I9 & I10).
  cbn [fst snd] in *.
  assert (Hcount := filter_texture_remove (TextureLoad i) (loading w) I4 Hin eq_refl).
  assert (Hno : (ObjLoad ∉ loading w) /\ (ObjLoad ∉ settled w)).
  { split; intros H;
      [assert (H4 := I8 (or_introl H))|assert (H4 := I8 (or_intror H))]; lia. }
  destruct Hno as [Hnl Hns].
  assert (Hns' : ObjLoad ∉ settled w ++ [TextureLoad i]).
  { intros H. apply elem_of_app in H as [H|H]; [exact (Hns H)|].
    apply list_elem_of_singleton in H. discriminate. }
  assert (Hcover : forall j, (j < 4)%nat ->
            TextureLoad j ∈ filter (fun y => y <> TextureLoad i) (loading w) \/
            TextureLoad j ∈ settled w ++ [TextureLoad i]).
  { intros j Hj. destruct (decide (j = i)) as [->|Hne].
    - right. apply elem_of_app. right. now apply list_elem_of_singleton.
    - destruct (I6 j Hj) as [H|H].
      + left. apply elem_of_without. split; [congruence|exact H].
      + right. apply elem_of_app. now left. }
  unfold exec, Texture.texture_settles, Texture.itemEnd, Texture.manager_onLoad, bind.
  simpl. rewrite I2, I3.
  destruct (decide (Datatypes.S (Texture.itemsLoaded (Texture.loadManager t)) = 4%nat))
    as [Hfull|Hpart]; unfold Texture.barrier_inv; simpl.
  - split; [exact I1|]. split; [reflexivity|]. split; [reflexivity|].
    split.
    { apply NoDup_app. split; [now apply NoDup_filter|]. split; [|apply NoDup_singleton].
      intros x Hx Hx'. apply list_elem_of_singleton in Hx' as ->.
      apply elem_of_without in Hx as [_ Hx]. exact (Hnl Hx). }
    split.
    { intros j Hj. apply elem_of_app in Hj as [Hj|Hj].
      - apply elem_of_without in Hj as [_ Hj]. now apply I5.
      - apply list_elem_of_singleton in Hj. discriminate. }
    split.
    { intros j Hj. destruct (Hcover j Hj) as [H|H]; [left|now right].
      apply elem_of_app. now left. }
    split; [rewrite filter_app; simpl; rewrite length_app; simpl; lia|].
    split; [intros _; exact Hfull|].
    split; [intros H; destruct (Hns' H)|].
    intros _. apply I10. exact Hns.
  - split; [exact I1|]. split; [reflexivity|]. split; [reflexivity|].
    split; [now apply NoDup_filter|].
    split; [intros j Hj; apply elem_of_without in Hj as [_ Hj]; now apply I5|].
    split; [exact Hcover|].
    split; [lia|].
    split.
    { intros [H|H]; [|destruct (Hns' H)].
      apply elem_of_without in H as [_ H]. destruct (Hnl H). }
    split; [intros H; destruct (Hns' H)|].
    intros _. apply I10. exact Hns.
Qed.

Lemma barrier_inv_step (e : Texture.Event) (s : Texture.TextureExample * World) :
  Texture.enabled e s ->
  Texture.barrier_inv s ->
  Texture.barrier_inv (exec (Texture.handle e) s).
Proof.
  intros He Hs. destruct e as [| |w h| |i|f| |]; cbn [Texture.handle Texture.enabled] in *.
  - exact Hs.
  - revert Hs. apply barrier_inv_ext; destruct s as [[[sc cam []] ? ? ?] wd]; reflexivity.
  - revert Hs. apply barrier_inv_ext; reflexivity.
  - revert Hs. apply barrier_inv_ext; reflexivity.
  - now apply barrier_inv_texture_settles.
  - destruct (texture_obj_lands f s) as (_ & Hfst & Hse & Hlo & _).
    apply (barrier_inv_settle_other ObjLoad s); auto; try (now rewrite Hfst).
    intros Hno _. destruct Hno. rewrite Hse. apply elem_of_app. right.
    now apply list_elem_of_singleton.
  - apply (barrier_inv_settle_other ObjLoad s); auto.
  - apply (barrier_inv_settle_other CubemapLoad s); auto.
    intros _. destruct s as [t wd]. unfold exec. simpl.
    apply Forall_alter_keep. intros o Ho. exact Ho.
Qed.

Lemma barrier_inv_reachable (s : Texture.TextureExample * World) :
  Texture.reachable s -> Texture.barrier_inv s.
Proof.
  induction 1 as [|s e _ IH He].
  - exact texture_inv_initialized.
  - now apply barrier_inv_step.
Qed.

(** C5: in every state an execution of the texture example can reach, if
    some mesh in the store carries the composed material, then each of the
    four texture loads and the model load has delivered its outcome and none
    of them is in flight. *)
Theorem texture_material_waits_for_barrier
        (s : Texture.TextureExample * World) (l : Load) :
  Texture.reachable s ->
  Texture.applied s ->
  l ∈ Texture.barrier ->
  l ∈ settled (snd s) /\ l ∉ loading (snd s).
Proof.
  intros Hr (m & id & o & Hm & Ho & _ & Hin) Hl.
  destruct (barrier_inv_reachable s Hr)
    as (I1 & I2 & I3 & I4 & I5 & I6 & I7 & I8 & I9 & I10).
  rewrite I1 in Hm. injection Hm as <-.
  assert (Hobj : ObjLoad ∈ settled (snd s)).
  { destruct (decide (ObjLoad ∈ settled (snd s))) as [H|H]; [exact H|].
    destruct (Forall_lookup_1 _ _ _ _ (I10 H) Ho Hin). }
  assert (Hfull := I8 (or_intror Hobj)).
  assert (Htex : forall i, TextureLoad i ∉ loading (snd s)).
  { intros i Hi.
    assert (Hf : TextureLoad i ∈ filter Texture.is_texture (loading (snd s))).
    { apply list_elem_of_filter. split; [exact I|exact Hi]. }
    destruct (filter Texture.is_texture (loading (snd s))); [inversion Hf|].
    simpl in I7. lia. }
  unfold Texture.barrier in Hl. rewrite !elem_of_cons, elem_of_nil in Hl.
  assert (Hall : forall i, (i < 4)%nat ->
            TextureLoad i ∈ settled (snd s) /\ TextureLoad i ∉ loading (snd s)).
  { intros i Hi. split; [|apply Htex].
    destruct (I6 i Hi) as [H|H]; [destruct (Htex i H)|exact H]. }
  destruct Hl as [->|[->|[->|[->|[->|[]]]]]]; try (apply Hall; lia).
  split; [exact Hobj|exact (I9 Hobj)].
Qed.

Lemma texture_material_waits_for_barrier_witness :
  let s := exec (Texture.handle (Texture.ObjLoads tokyo))
             (exec (Texture.handle (Texture.TextureSettles 2))
                (exec (Texture.handle (Texture.TextureSettles 0))
                   (exec (Texture.handle (Texture.TextureSettles 3))
                      (exec (Texture.handle Texture.Render)
                         (exec (Texture.handle (Texture.TextureSettles 1))
                            (exec Texture.initialize Texture.fresh)))))) in
  Texture.reachable s /\ Texture.applied s /\
  TextureLoad 2 ∈ Texture.barrier /\
  TextureLoad 2 ∈ settled (snd s) /\ TextureLoad 2 ∉ loading (snd s).
Proof.
  intros s.
  assert (Hr : Texture.reachable s).
  { repeat (apply Texture.reach_step;
            [|cbn [Texture.enabled]; try exact I;
              apply (bool_decide_unpack _); vm_compute; exact I]).
    apply Texture.reach_initialized. }
  assert (Ha : Texture.applied s).
  { exists 4%nat, 5%nat. eexists. split; [reflexivity|]. split; [vm_compute; reflexivity|].
    split; [reflexivity|]. apply list_elem_of_here. }
  assert (Hl : TextureLoad 2 ∈ Texture.barrier).
  { apply (bool_decide_unpack _). vm_compute. exact I. }
  split; [exact Hr|]. split; [exact Ha|]. split; [exact Hl|].
  exact (texture_material_waits_for_barrier s (TextureLoad 2) Hr Ha Hl).
Defined.

(** * Further properties *)

(** ** Generic facts about loops and the scene graph *)

Lemma for_each_app {S A} (xs ys : list A) (body : A -> M S unit) (s : S) :
  fst (for_each xs body s) = Done tt ->
  for_each (xs ++ ys) body s = for_each ys body (exec (for_each xs body) s).
Proof.
  revert s. induction xs as [|x xs IH]; intros s H; [reflexivity|].
  simpl in *. unfold bind, exec in *.
  destruct (fst (body x s)) as [[]|e] eqn:Hx; [|discriminate].
  simpl. rewrite (IH _ H). reflexivity.
Qed.

Lemma for_each_dispose {T} (rs : list nat) (t : T) (w : World) :
  for_each rs (fun r => world (dispose r)) (t, w)
  = (Done tt, (t, with_calls (calls w ++ map Dispose rs) w)).
Proof.
  revert w. induction rs as [|r rs IH]; intros w.
  - simpl. rewrite app_nil_r. destruct w; reflexivity.
  - simpl. unfold bind. simpl. rewrite IH. simpl.
    rewrite <- app_assoc. reflexivity.
Qed.

Lemma disposed_app_disposals (cs : list Call) (rs : list nat) :
  omap (fun c => match c with Dispose r => Some r | _ => None end)
       (cs ++ map Dispose rs)
  = omap (fun c => match c with Dispose r => Some r | _ => None end) cs ++ rs.
Proof.
  rewrite omap_app. f_equal. induction rs as [|r rs IH]; [reflexivity|].
  cbn [map]. change (omap ?f (?x :: ?l)) with
    (match f x with Some y => y :: omap f l | None => omap f l end).
  cbn beta iota. now f_equal.
Qed.

Lemma detach_all (cs : list nat) (w : World) :
  exists h,
    for_each cs (fun c => update_object c (set_parent None)) w
    = (Done tt, with_heap h w) /\
    length h = length (heap w) /\
    (forall j, children_of h j = children_of (heap w) j) /\
    (forall j, j ∈ cs -> parent_of h j = None) /\
    (forall j, j ∉ cs -> h !! j = heap w !! j).
Proof.
  revert w. induction cs as [|c cs IH]; intros w.
  - exists (heap w). simpl. destruct w; auto 10 using elem_of_nil.
    repeat split; auto. intros j Hj. now apply elem_of_nil in Hj.
  - destruct (IH (with_heap (alter (set_parent None) c (heap w)) w))
      as (h & Hrun & Hlen & Hch & Hin & Hout).
    exists h. simpl in *. unfold bind. simpl. rewrite Hrun. simpl.
    split; [reflexivity|]. rewrite length_alter in Hlen.
    split; [exact Hlen|]. split; [|split].
    + intros j. rewrite Hch. unfold children_of.
      destruct (decide (c = j)) as [->|Hne].
      * rewrite list_lookup_alter_eq. now destruct (heap w !! j).
      * now rewrite list_lookup_alter_ne.
    + intros j Hj. destruct (decide (j ∈ cs)) as [Hjc|Hjc]; [now apply Hin|].
      apply elem_of_cons in Hj as [->|Hj]; [|contradiction].
      unfold parent_of. rewrite (Hout _ Hjc), list_lookup_alter_eq.
      now destruct (heap w !! c).
    + intros j Hj. apply not_elem_of_cons in Hj as [Hne Hj].
      rewrite (Hout _ Hj). now rewrite list_lookup_alter_ne.
Qed.

Lemma clear_effect (p : nat) (w : World) :
  fst (clear p w) = Done tt /\
  children_of (heap (snd (clear p w))) p = [] /\
  (forall c, c ∈ children_of (heap w) p -> c <> p ->
             parent_of (heap (snd (clear p w))) c = None) /\
  (forall j, j <> p -> j ∉ children_of (heap w) p ->
             heap (snd (clear p w)) !! j = heap w !! j) /\
  length (heap (snd (clear p w))) = length (heap w) /\
  resources (snd (clear p w)) = resources w /\
  calls (snd (clear p w)) = calls w /\
  loading (snd (clear p w)) = loading w /\
  settled (snd (clear p w)) = settled w.
Proof.
  destruct (detach_all (children_of (heap w) p) w)
    as (h & Hrun & Hlen & Hch & Hin & Hout).
  unfold clear, bind, get. cbn [fst snd]. rewrite Hrun. cbn [fst snd].
  unfold update_object, modify. cbn [fst snd heap with_heap resources calls loading settled].
  split; [reflexivity|]. split; [|split; [|split; [|split]]].
  - unfold children_of. rewrite list_lookup_alter_eq. now destruct (h !! p).
  - intros c Hc Hne. unfold parent_of. rewrite list_lookup_alter_ne by congruence.
    exact (Hin c Hc).
  - intros j Hne Hj. rewrite list_lookup_alter_ne by congruence. exact (Hout j Hj).
  - now rewrite length_alter.
  - auto.
Qed.

(** ** [destroy] in any state *)

Lemma planets_destroy_run (s : Planets.PlanetsExample * World) :
  fst (Planets.destroy s) = Done tt /\
  disposed (snd (exec Planets.destroy s)) =
    disposed (snd s) ++ Planets.disposableMaterial (fst s)
                     ++ Planets.disposableGeometry (fst s) /\
  Planets.disposableMaterial (fst (exec Planets.destroy s)) = [] /\
  Planets.disposableGeometry (fst (exec Planets.destroy s)) = [] /\
  children_of (heap (snd (exec Planets.destroy s)))
              (Example._scene (Planets.base (fst s))) = [] /\
  (Planets.sun (fst (exec Planets.destroy s)),
   Planets.earth (fst (exec Planets.destroy s)),
   Planets.mars (fst (exec Planets.destroy s)))
  = (Planets.sun (fst s), Planets.earth (fst s), Planets.mars (fst s)).
Proof.
  destruct s as [p w]. cbn [fst snd].
  unfold exec, Planets.destroy, Example.destroy, bind, super, this, set_this, modify.
  cbn [fst snd].
  rewrite for_each_dispose. cbn [fst snd]. rewrite for_each_dispose.
  cbn [fst snd Planets.base Planets.set_base Planets.disposableMaterial
       Planets.disposableGeometry Planets.set_disposableGeometry
       Planets.set_disposableMaterial Example._scene Example.set_lifecycle].
  unfold world. cbn [fst snd].
  match goal with |- context [clear ?sc ?w'] =>
    destruct (clear_effect sc w') as (C1 & C2 & _ & _ & _ & _ & C3 & _) end.
  rewrite C1. cbn [fst snd Planets.disposableMaterial Planets.disposableGeometry
                   Planets.sun Planets.earth Planets.mars].
  split; [reflexivity|]. split.
  { unfold disposed. rewrite C3. cbn [calls with_calls].
    now rewrite !disposed_app_disposals, <- app_assoc. }
  split; [reflexivity|]. split; [reflexivity|]. split; [exact C2|reflexivity].
Qed.

(** X1: in any state, [destroy] of the planets example returns, calls
    [dispose] exactly on the tracked materials and then on the tracked
    geometries, in insertion order, empties both sets, leaves the scene root
    without children, and keeps the three body references; a second
    [destroy] right after it disposes nothing more. *)
Theorem planets_destroy_disposes_tracked (s : Planets.PlanetsExample * World) :
  let s' := exec Planets.destroy s in
  returns Planets.destroy s /\
  disposed (snd s') =
    disposed (snd s) ++ Planets.disposableMaterial (fst s)
                     ++ Planets.disposableGeometry (fst s) /\
  Planets.disposableMaterial (fst s') = [] /\
  Planets.disposableGeometry (fst s') = [] /\
  children_of (heap (snd s')) (Example._scene (Planets.base (fst s))) = [] /\
  (Planets.sun (fst s'), Planets.earth (fst s'), Planets.mars (fst s'))
  = (Planets.sun (fst s), Planets.earth (fst s), Planets.mars (fst s)) /\
  disposed (snd (exec Planets.destroy s')) = disposed (snd s').
Proof.
  pose proof planets_destroy_run as Hone.
  intros s'. destruct (Hone s) as (H1 & H2 & H3 & H4 & H5 & H6).
  split; [now exists tt|]. split; [exact H2|]. split; [exact H3|].
  split; [exact H4|]. split; [exact H5|]. split; [exact H6|].
  destruct (Hone s') as (_ & H2' & _). rewrite H2'. subst s'.
  rewrite H3, H4. now rewrite !app_nil_r.
Qed.

Lemma for_each_dispose_mesh (ids : list nat) (g : Gltf.GLTFExample) (w : World) :
  for_each ids Gltf.dispose_mesh (g, w)
  = (Done tt,
     (g, with_calls (calls w ++ map Dispose (flat_map (mesh_resources (heap w)) ids))
                    w)).
Proof.
  revert w. induction ids as [|id ids IH]; intros w.
  - simpl. rewrite app_nil_r. destruct w; reflexivity.
  - assert (H : Gltf.dispose_mesh id (g, w)
                = (Done tt,
                   (g, with_calls (calls w ++ map Dispose (mesh_resources (heap w) id))
                                  w))).
    { unfold Gltf.dispose_mesh, mesh_resources, bind, get. cbn [fst snd].
      destruct (heap w !! id) as [[k ? ? ? ? ? ? ?]|];
        [destruct k as [| | | |geo mat|? ?]|]; cbn [kind];
        try (rewrite app_nil_r; destruct w; reflexivity).
      unfold bind.
      change (world (dispose geo) (g, w))
        with (@Done unit tt, (g, with_calls (calls w ++ [Dispose geo]) w)).
      cbn [fst snd]. rewrite for_each_dispose. cbn [fst snd calls with_calls map].
      rewrite <- app_assoc. reflexivity. }
    cbn [for_each flat_map]. unfold bind. rewrite H. cbn [fst snd].
    rewrite IH. cbn [heap calls with_calls]. rewrite map_app, <- app_assoc.
    reflexivity.
Qed.

Lemma gltf_destroy_run (s : Gltf.GLTFExample * World) :
  let s' := exec Gltf.destroy s in
  let scene := Example._scene (Gltf.base (fst s)) in
  returns Gltf.destroy s /\
  disposed (snd s') =
    disposed (snd s)
    ++ flat_map (mesh_resources (heap (snd s)))
                (traverse_order (length (heap (snd s))) (heap (snd s)) scene) /\
  children_of (heap (snd s')) scene = [] /\
  Example.lifecycle (Gltf.base (fst s')) = Example.Destroyed /\
  Gltf._mixer (fst s') = Gltf._mixer (fst s) /\
  Gltf._clock (fst s') = Gltf._clock (fst s).
Proof.
  destruct s as [g w]. cbn [fst snd].
  unfold exec, returns, Gltf.destroy, Example.destroy, traverse, bind, super, this,
    set_this, modify, get.
  cbn [fst snd]. rewrite for_each_dispose_mesh. cbn [fst snd].
  unfold world. cbn [fst snd Gltf.base Gltf.set_base Example._scene
                     Example.set_lifecycle heap with_calls].
  match goal with |- context [clear ?sc ?w'] =>
    destruct (clear_effect sc w') as (C1 & C2 & _ & _ & _ & _ & C3 & _) end.
  rewrite C1. cbn [fst snd].
  split; [now exists tt|]. split.
  { unfold disposed. rewrite C3. cbn [calls with_calls].
    now rewrite disposed_app_disposals. }
  split; [exact C2|]. repeat split.
Qed.

(** X2: in any state, [destroy] of the glTF example returns.  It calls
    [dispose], for each object the traversal from the scene root visits, on
    the geometry and then on each material of that object when it is a mesh,
    and on nothing else.  Afterwards the scene root has no children and the
    instance is Destroyed, but the mixer and the clock are kept as they
    were. *)
Theorem gltf_destroy_disposes_visited_meshes (s : Gltf.GLTFExample * World) :
  let s' := exec Gltf.destroy s in
  let scene := Example._scene (Gltf.base (fst s)) in
  returns Gltf.destroy s /\
  disposed (snd s') =
    disposed (snd s)
    ++ flat_map (mesh_resources (heap (snd s)))
                (traverse_order (length (heap (snd s))) (heap (snd s)) scene) /\
  children_of (heap (snd s')) scene = [] /\
  Example.lifecycle (Gltf.base (fst s')) = Example.Destroyed /\
  Gltf._mixer (fst s') = Gltf._mixer (fst s) /\
  Gltf._clock (fst s') = Gltf._clock (fst s).
Proof. exact (gltf_destroy_run s). Qed.

(** ** Velocities that change between frames *)

Lemma planets_events_turned (b : Planets.Body) (es : list Planets.Event) :
  forall (s : Planets.PlanetsExample * World) (r : Q),
    Planets.sun (fst s) = Some 2%nat ->
    Planets.earth (fst s) = Some 4%nat ->
    Planets.mars (fst s) = Some 6%nat ->
    Planets.rotation b s = Some r ->
    fst (for_each es Planets.handle s) = Done tt /\
    exists r',
      Planets.rotation b (exec (for_each es Planets.handle) s) = Some r' /\
      r' == r + turned b (Planets.velocity b (fst s)) es.
Proof.
  induction es as [|e es IH]; intros s r Hs He Hm Hr.
  - simpl. split; [reflexivity|]. exists r. split; [exact Hr|]. ring.
  - destruct e as [delta elapsed| |b' v'].
    + destruct (planets_update_placed delta elapsed s Hs He Hm) as (H1 & H2 & H3).
      specialize (H3 b r Hr). unfold exec.
      rewrite (for_each_cons (Planets.Update delta elapsed) es Planets.handle s H1).
      destruct (IH (exec (Planets.update delta elapsed) s)
                   (r + Planets.velocity b (fst s))) as (I1 & r' & I2 & I3);
        try (rewrite H2; assumption); [exact H3|].
      split; [exact I1|]. exists r'. split; [exact I2|].
      rewrite I3, H2. cbn [turned]. ring.
    + destruct (planets_render_frame s) as (H1 & H2 & H3). unfold exec.
      rewrite (for_each_cons Planets.Render es Planets.handle s H1).
      destruct (IH (exec Planets.render s) r) as (I1 & r' & I2 & I3);
        try (rewrite H2; assumption).
      { unfold Planets.rotation. rewrite H2, H3. exact Hr. }
      split; [exact I1|]. exists r'. split; [exact I2|].
      rewrite I3, H2. reflexivity.
    + assert (H1 : fst (Planets.handle (Planets.Tune b' v') s) = Done tt) by reflexivity.
      unfold exec.
      rewrite (for_each_cons (Planets.Tune b' v') es Planets.handle s H1).
      destruct (IH (exec (Planets.handle (Planets.Tune b' v')) s) r)
        as (I1 & r' & I2 & I3).
      * destruct b'; exact Hs.
      * destruct b'; exact He.
      * destruct b'; exact Hm.
      * destruct s as [p w]. unfold Planets.rotation in *.
        destruct b, b'; simpl in *; exact Hr.
      * split; [exact I1|]. exists r'. split; [exact I2|].
        rewrite I3. cbn [turned].
        destruct s as [p w]. destruct b, b'; reflexivity.
Qed.

(** X3: on the initialised planets example, after any sequence of [update],
    [render] and debug-panel writes, all calls have returned and each body
    has been turned by the sum, over the [update] calls, of the velocity its
    holder had at that call: a value the panel writes is used from the next
    [update] on. *)
Theorem planets_rotation_follows_panel (b : Planets.Body) (es : list Planets.Event) :
  let s0 := exec Planets.initialize Planets.fresh in
  let s := exec (for_each es Planets.handle) s0 in
  returns (for_each es Planets.handle) s0 /\
  exists r, Planets.rotation b s = Some r /\
            r == turned b (Planets.velocity b (fst s0)) es.
Proof.
  intros s0 s.
  destruct (planets_events_turned b es s0 0) as (H1 & r & H2 & H3);
    try (destruct b; reflexivity).
  split; [now exists tt|]. exists r. split; [exact H2|]. rewrite H3. ring.
Qed.

(** ** The animation clock *)

Lemma gltf_update_with_mixer (now : Q) (s : Gltf.GLTFExample * World)
      (m : Gltf.AnimationMixer) :
  Gltf._mixer (fst s) = Some m ->
  Gltf.running (Gltf._clock (fst s)) = true ->
  let delta := now - Gltf.oldTime (Gltf._clock (fst s)) in
  Gltf.update now s
  = (Done tt,
     (Gltf.set_mixer
        (Some (Gltf.mkMixer (Gltf.mixer_root m) (Gltf.mixer_time m + delta)
                            (Gltf.playing m)))
        (Gltf.set_clock (Gltf.mkClock true now) (fst s)),
      with_calls (calls (snd s)
                  ++ [MixerUpdate delta;
                      RendererRender (Example._scene (Gltf.base (fst s)))
                                     (Example._cam (Gltf.base (fst s)))])
                 (snd s))).
Proof.
  destruct s as [g w]. cbn [fst snd]. intros Hm Hr.
  unfold Gltf.update, Gltf.getDelta, bind. cbn [fst snd this]. rewrite Hr.
  simpl. rewrite Hm. simpl.
  unfold world, renderer_render, call, modify. simpl.
  rewrite <- app_assoc. reflexivity.
Qed.

(** X4: once the model is loaded and the clock runs, after any sequence of
    [update] and [render] calls the calls have returned, the mixer has been
    advanced by the time between the last [update] before the sequence and
    the last [update] in it, whatever the number of frames in between, with
    one [AnimationMixer.update] call per [update]; its root and its playing
    clips are unchanged, and the clock stands at the last [update]. *)
Theorem gltf_mixer_follows_the_clock
        (fs : list Gltf.Frame) (s : Gltf.GLTFExample * World)
        (m : Gltf.AnimationMixer) :
  Gltf._mixer (fst s) = Some m ->
  Gltf.running (Gltf._clock (fst s)) = true ->
  let t0 := Gltf.oldTime (Gltf._clock (fst s)) in
  let s' := exec (for_each fs Gltf.frame) s in
  returns (for_each fs Gltf.frame) s /\
  (exists m',
      Gltf._mixer (fst s') = Some m' /\
      Gltf.mixer_root m' = Gltf.mixer_root m /\
      Gltf.playing m' = Gltf.playing m /\
      Gltf.mixer_time m' == Gltf.mixer_time m + (last_now t0 fs - t0)) /\
  Gltf._clock (fst s') = Gltf.mkClock true (last_now t0 fs) /\
  length (filter Gltf.is_mixer_update (calls (snd s')))
  = (length (filter Gltf.is_mixer_update (calls (snd s))) + frame_updates fs)%nat.
Proof.
  revert s m. unfold returns.
  induction fs as [|f fs IH]; intros s m Hm Hr.
  - unfold exec. simpl. split; [now exists tt|]. split.
    + exists m. repeat split; auto. ring.
    + split; [|lia]. destruct s as [[? [? ?] ? ? ? ?] ?]. simpl in *. now subst.
  - destruct f as [now|].
    + assert (Hu := gltf_update_with_mixer now s m Hm Hr). cbv zeta in Hu.
      assert (H1 : fst (Gltf.frame (Gltf.Update now) s) = Done tt)
        by (cbn [Gltf.frame]; now rewrite Hu).
      unfold exec.
      rewrite (for_each_cons (Gltf.Update now) fs Gltf.frame s H1).
      unfold exec. cbn [Gltf.frame]. rewrite Hu. cbn [snd].
      match goal with |- context [for_each fs Gltf.frame ?s1] =>
        destruct (IH s1 (Gltf.mkMixer (Gltf.mixer_root m)
                           (Gltf.mixer_time m + (now - Gltf.oldTime (Gltf._clock (fst s))))
                           (Gltf.playing m)) eq_refl eq_refl)
          as (I1 & (m' & I2 & I3 & I4 & I5) & I6 & I7)
      end.
      cbn [fst snd Gltf._clock Gltf.set_clock Gltf.set_mixer Gltf.oldTime
           Gltf.mixer_root Gltf.mixer_time Gltf.playing calls with_calls] in *.
      unfold exec in *. split; [exact I1|]. split.
      * exists m'. split; [exact I2|]. split; [exact I3|]. split; [exact I4|].
        cbn [last_now]. rewrite I5. ring.
      * split; [exact I6|]. rewrite I7. rewrite filter_app, length_app.
        cbn [frame_updates]. simpl. lia.
    + assert (H1 : fst (Gltf.frame Gltf.Render s) = Done tt) by reflexivity.
      unfold exec.
      rewrite (for_each_cons Gltf.Render fs Gltf.frame s H1).
      destruct (IH (exec Gltf.render s) m Hm Hr)
        as (I1 & (m' & I2 & I3 & I4 & I5) & I6 & I7).
      unfold exec in *. cbn [Gltf.frame]. split; [exact I1|]. split.
      * exists m'. repeat split; auto.
      * split; [exact I6|]. rewrite I7. cbn [frame_updates].
        unfold Gltf.render. simpl. rewrite filter_app. simpl.
        now rewrite app_nil_r.
Qed.

Lemma gltf_mixer_follows_the_clock_witness :
  let s := exec (Gltf.initialize ;; Gltf.load_completes tokyo ;; Gltf.update 10)
                (Gltf.fresh (1024, 768)) in
  let fs := [Gltf.Update 10.5; Gltf.Render; Gltf.Update 11; Gltf.Render;
             Gltf.Render; Gltf.Update 12.25] in
  Gltf._mixer (fst s) = Some (Gltf.mkMixer 4 0 [O]) /\
  Gltf.running (Gltf._clock (fst s)) = true /\
  exists m',
    Gltf._mixer (fst (exec (for_each fs Gltf.frame) s)) = Some m' /\
    Gltf.mixer_root m' = 4%nat /\
    Gltf.playing m' = [O] /\
    Gltf.mixer_time m' == 0 + (12.25 - 10).
Proof.
  split; [reflexivity|]. split; [reflexivity|].
  exact (proj1 (proj2 (gltf_mixer_follows_the_clock
    [Gltf.Update 10.5; Gltf.Render; Gltf.Update 11; Gltf.Render;
     Gltf.Render; Gltf.Update 12.25]
    (exec (Gltf.initialize ;; Gltf.load_completes tokyo ;; Gltf.update 10)
          (Gltf.fresh (1024, 768)))
    (Gltf.mkMixer 4 0 [O]) eq_refl eq_refl))).
Defined.

(** ** A model without animation clips *)



(** ** The texture example: what starts the model load, and what applies
    the material *)

(** X6: only the success callback of the OBJ load can put the composed
    material on a mesh: if the material is applied after any other event
    (a frame call, [resize], [destroy], a texture outcome, the cubemap, or the
    failure of the OBJ load), it was applied before it. *)
Theorem texture_only_model_callback_applies
        (e : Texture.Event) (s : Texture.TextureExample * World) :
  (forall f, e <> Texture.ObjLoads f) ->
  Texture.applied (exec (Texture.handle e) s) ->
  Texture.applied s.
Proof.
  intros He. destruct s as [t w].
  assert (Hsame : forall s' : Texture.TextureExample * World,
            Texture.material (fst s') = Texture.material t ->
            heap (snd s') = heap w ->
            Texture.applied s' -> Texture.applied (t, w)).
  { intros s' Em Eh (m & id & o & H1 & H2 & H3 & H4).
    exists m, id, o. cbn [fst snd]. rewrite <- Em, <- Eh. auto. }
  destruct e as [| |x y| |i|f| |]; cbn [Texture.handle].
  - exact (fun H => H).
  - apply Hsame; destruct t as [[sc cam []] ? ? ?]; reflexivity.
  - apply Hsame; reflexivity.
  - apply Hsame; reflexivity.
  - apply Hsame;
      (unfold exec, Texture.texture_settles, Texture.itemEnd,
         Texture.manager_onLoad, bind; simpl;
       (destruct (decide _); [destruct (Texture.onLoad _)|]); reflexivity).
  - destruct (He f eq_refl).
  - apply Hsame; reflexivity.
  - intros (m & id & o & H1 & H2 & H3 & H4).
    change (Texture.material t = Some m) in H1.
    change (alter (set_environment (Some (length (resources w))))
                  (Example._scene (Texture.base t)) (heap w) !! id = Some o) in H2.
    destruct (decide (Example._scene (Texture.base t) = id)) as [<-|Hne].
    + rewrite list_lookup_alter_eq in H2.
      destruct (heap w !! Example._scene (Texture.base t)) as [o0|] eqn:Ho;
        [|discriminate].
      injection H2 as <-. exists m, (Example._scene (Texture.base t)), o0. auto.
    + rewrite list_lookup_alter_ne in H2 by exact Hne.
      exists m, id, o. auto.
Qed.

Lemma texture_only_model_callback_applies_witness :
  let s := exec (Texture.initialize ;; Texture.texture_settles 0 ;;
                 Texture.texture_settles 1 ;; Texture.texture_settles 2 ;;
                 Texture.texture_settles 3 ;; Texture.obj_loads tokyo)
                Texture.fresh in
  (forall f, Texture.CubemapLoads <> Texture.ObjLoads f) /\
  Texture.applied (exec (Texture.handle Texture.CubemapLoads) s) /\
  Texture.applied s.
Proof.
  intros s.
  assert (He : forall f, Texture.CubemapLoads <> Texture.ObjLoads f)
    by (intros f; discriminate).
  assert (Ha : Texture.applied (exec (Texture.handle Texture.CubemapLoads) s)).
  { exists 4%nat, 5%nat. eexists. split; [reflexivity|].
    split; [vm_compute; reflexivity|]. split; [reflexivity|apply list_elem_of_here]. }
  split; [exact He|]. split; [exact Ha|].
  exact (texture_only_model_callback_applies Texture.CubemapLoads s He Ha).
Defined.

Lemma loads_inv_settle (x : Load) (s s' : Texture.TextureExample * World) :
  x ∈ loading (snd s) ->
  Texture.loadManager (fst s') = Texture.loadManager (fst s) ->
  loading (snd s') = filter (fun y => y <> x) (loading (snd s)) ->
  settled (snd s') = settled (snd s) ++ [x] ->
  loads_inv s -> loads_inv s'.
Proof.
  intros Hin El Elo Ese (J1 & J2 & J3). unfold loads_inv. rewrite El, Elo, Ese.
  split; [|split].
  - apply NoDup_app. split; [exact J1|]. split; [|apply NoDup_singleton].
    intros y Hy Hy'. apply list_elem_of_singleton in Hy'. subst y.
    exact (J2 x Hy Hin).
  - intros y Hy Hy'. apply elem_of_without in Hy' as [Hne Hy'].
    apply elem_of_app in Hy as [Hy|Hy]; [exact (J2 y Hy Hy')|].
    apply list_elem_of_singleton in Hy. contradiction.
  - intros H4. destruct (J3 H4) as [H|H].
    + destruct (decide (x = ObjLoad)) as [->|Hne].
      * right. apply elem_of_app. right. now apply list_elem_of_singleton.
      * left. apply elem_of_without. split; [congruence|exact H].
    + right. apply elem_of_app. now left.
Qed.

Lemma loads_inv_texture_settles (i : nat) (s : Texture.TextureExample * World) :
  TextureLoad i ∈ loading (snd s) ->
  Texture.barrier_inv s -> loads_inv s ->
  loads_inv (exec (Texture.texture_settles i) s).
Proof.
  destruct s as [t w]. cbn [fst snd].
  intros Hin (_ & I2 & I3 & _ & _ & _ & _ & I8 & _) (J1 & J2 & J3).
  cbn [fst snd] in *.
  assert (Hnd : NoDup (settled w ++ [TextureLoad i])).
  { apply NoDup_app. split; [exact J1|]. split; [|apply NoDup_singleton].
    intros y Hy Hy'. apply list_elem_of_singleton in Hy'. subst y.
    exact (J2 _ Hy Hin). }
  assert (Hdis : forall y, y ∈ settled w ++ [TextureLoad i] ->
                           y ∉ filter (fun z => z <> TextureLoad i) (loading w)).
  { intros y Hy Hy'. apply elem_of_without in Hy' as [Hne Hy'].
    apply elem_of_app in Hy as [Hy|Hy]; [exact (J2 y Hy Hy')|].
    apply list_elem_of_singleton in Hy. contradiction. }
  unfold exec, Texture.texture_settles, Texture.itemEnd, Texture.manager_onLoad, bind.
  simpl. rewrite I2, I3.
  destruct (decide (Datatypes.S (Texture.itemsLoaded (Texture.loadManager t)) = 4%nat))
    as [Hfull|Hpart]; unfold loads_inv; simpl.
  - split; [exact Hnd|]. split.
    + intros y Hy Hy'. apply elem_of_app in Hy' as [Hy'|Hy']; [exact (Hdis y Hy Hy')|].
      apply list_elem_of_singleton in Hy'. subst y.
      apply elem_of_app in Hy as [Hy|Hy].
      * assert (H4 := I8 (or_intror Hy)). lia.
      * apply list_elem_of_singleton in Hy. discriminate.
    + intros _. left. apply elem_of_app. right. now apply list_elem_of_singleton.
  - split; [exact Hnd|]. split; [exact Hdis|]. intros H4. contradiction.
Qed.

Lemma loads_inv_step (e : Texture.Event) (s : Texture.TextureExample * World) :
  Texture.enabled e s ->
  Texture.barrier_inv s -> loads_inv s ->
  loads_inv (exec (Texture.handle e) s).
Proof.
  intros He Hb Hs.
  assert (Hsame : forall s' : Texture.TextureExample * World,
            Texture.loadManager (fst s') = Texture.loadManager (fst s) ->
            loading (snd s') = loading (snd s) ->
            settled (snd s') = settled (snd s) -> loads_inv s').
  { intros s' E1 E2 E3. unfold loads_inv. rewrite E1, E2, E3. exact Hs. }
  destruct e as [| |w h| |i|f| |]; cbn [Texture.handle Texture.enabled] in *.
  - exact Hs.
  - apply Hsame; destruct s as [[[sc cam []] ? ? ?] wd]; reflexivity.
  - apply Hsame; reflexivity.
  - apply Hsame; reflexivity.
  - now apply loads_inv_texture_settles.
  - destruct (texture_obj_lands f s) as (_ & Hfst & Hse & Hlo & _).
    apply (loads_inv_settle ObjLoad s); auto. now rewrite Hfst.
  - apply (loads_inv_settle ObjLoad s); auto.
  - apply (loads_inv_settle CubemapLoad s); auto.
Qed.

Lemma loads_inv_reachable (s : Texture.TextureExample * World) :
  Texture.reachable s -> loads_inv s.
Proof.
  induction 1 as [|s e Hr IH He].
  - unfold loads_inv. vm_compute settled. vm_compute loading.
    split; [constructor|]. split.
    + intros x Hx. now apply elem_of_nil in Hx.
    + intros H4. vm_compute in H4. discriminate.
  - apply loads_inv_step; auto. now apply barrier_inv_reachable.
Qed.

(** X7: in every state an execution of the texture example can reach, the
    model load has been started exactly when all four texture loads have
    delivered their outcome, and it has been started at most once: no load
    appears twice among the loads in flight and the loads that have delivered
    their outcome. *)
Theorem texture_model_load_starts_after_fourth_texture
        (s : Texture.TextureExample * World) :
  Texture.reachable s ->
  ((forall i, (i < 4)%nat -> TextureLoad i ∈ settled (snd s)) <->
   (ObjLoad ∈ loading (snd s) \/ ObjLoad ∈ settled (snd s))) /\
  NoDup (loading (snd s) ++ settled (snd s)).
Proof.
  intros Hr.
  destruct (barrier_inv_reachable s Hr)
    as (I1 & I2 & I3 & I4 & I5 & I6 & I7 & I8 & I9 & I10).
  destruct (loads_inv_reachable s Hr) as (J1 & J2 & J3).
  split; [split|].
  - intros Hall. apply J3.
    destruct (filter Texture.is_texture (loading (snd s))) as [|x l] eqn:Hf;
      [simpl in I7; lia|].
    assert (Hx : x ∈ filter Texture.is_texture (loading (snd s)))
      by (rewrite Hf; apply list_elem_of_here).
    apply list_elem_of_filter in Hx as [Hx Hxl].
    destruct x as [i| | |]; try contradiction.
    destruct (J2 _ (Hall i (I5 i Hxl)) Hxl).
  - intros Hobj i Hi. assert (H4 := I8 Hobj).
    destruct (I6 i Hi) as [H|H]; [|exact H].
    assert (Hf : TextureLoad i ∈ filter Texture.is_texture (loading (snd s))).
    { apply list_elem_of_filter. split; [exact I|exact H]. }
    destruct (filter Texture.is_texture (loading (snd s))); [inversion Hf|].
    simpl in I7. lia.
  - apply NoDup_app. split; [exact I4|]. split; [|exact J1].
    intros x Hx Hx'. exact (J2 x Hx' Hx).
Qed.

Lemma texture_model_load_starts_after_fourth_texture_witness :
  let s := exec (Texture.handle (Texture.TextureSettles 1))
             (exec (Texture.handle (Texture.TextureSettles 0))
                (exec (Texture.handle (Texture.TextureSettles 2))
                   (exec (Texture.handle Texture.CubemapLoads)
                      (exec (Texture.handle (Texture.TextureSettles 3))
                         (exec Texture.initialize Texture.fresh))))) in
  Texture.reachable s /\
  ((forall i, (i < 4)%nat -> TextureLoad i ∈ settled (snd s)) <->
   (ObjLoad ∈ loading (snd s) \/ ObjLoad ∈ settled (snd s))) /\
  loading (snd s) = [ObjLoad].
Proof.
  intros s.
  assert (Hr : Texture.reachable s).
  { repeat (apply Texture.reach_step;
            [|cbn [Texture.enabled]; try exact I;
              apply (bool_decide_unpack _); vm_compute; exact I]).
    apply Texture.reach_initialized. }
  split; [exact Hr|]. split; [|reflexivity].
  exact (proj1 (texture_model_load_starts_after_fourth_texture s Hr)).
Defined.

(** ** What the OBJ callback does to the objects *)

Lemma dress_idempotent (m : nat) (o : Object3D) : dress m (dress m o) = dress m o.
Proof. destruct o as [[] ? ? ? ? ? ? ?]; reflexivity. Qed.

Lemma apply_material_pointwise (m : nat) (ids : list nat) :
  forall (t : Texture.TextureExample) (w : World) (j : nat),
    heap (snd (exec (for_each ids (Texture.apply_material m)) (t, w))) !! j
    = (if decide (j ∈ ids) then dress m else fun o => o) <$> heap w !! j.
Proof.
  induction ids as [|id ids IH]; intros t w j.
  - unfold exec. simpl. destruct (decide (j ∈ [])) as [H|_];
      [now apply elem_of_nil in H|]. now destruct (heap w !! j).
  - assert (Hstep : exists h1,
              Texture.apply_material m id (t, w) = (Done tt, (t, with_heap h1 w)) /\
              forall j, h1 !! j
                        = (if decide (j = id) then dress m else fun o => o)
                            <$> heap w !! j).
    { unfold Texture.apply_material, bind, get. cbn [fst snd].
      destruct (heap w !! id) as [o|] eqn:Ho.
      - destruct (isMesh o) eqn:Hmesh.
        + exists (alter (Three.set_material m) id
                        (alter (set_castShadow true) id (heap w))).
          split; [reflexivity|]. intros k.
          destruct (decide (k = id)) as [->|Hne].
          * rewrite !list_lookup_alter_eq, Ho. cbn [fmap option_fmap option_map].
            unfold dress. now rewrite Hmesh.
          * rewrite !list_lookup_alter_ne by congruence. now destruct (heap w !! k).
        + exists (heap w). split; [destruct w; reflexivity|]. intros k.
          destruct (decide (k = id)) as [->|Hne].
          * rewrite Ho. cbn [fmap option_fmap option_map].
            unfold dress. now rewrite Hmesh.
          * now destruct (heap w !! k).
      - exists (heap w). split; [destruct w; reflexivity|]. intros k.
        destruct (decide (k = id)) as [->|Hne]; [now rewrite Ho|].
        now destruct (heap w !! k). }
    destruct Hstep as (h1 & Hrun & Hh1).
    assert (H1 : fst (Texture.apply_material m id (t, w)) = Done tt) by now rewrite Hrun.
    unfold exec. rewrite (for_each_cons id ids (Texture.apply_material m) (t, w) H1).
    unfold exec. rewrite Hrun. cbn [snd].
    specialize (IH t (with_heap h1 w) j). unfold exec in IH. rewrite IH.
    cbn [heap with_heap]. rewrite Hh1.
    destruct (heap w !! j) as [o|]; [|now repeat case_decide].
    cbn [fmap option_fmap option_map].
    destruct (decide (j ∈ ids)) as [Hin|Hin], (decide (j = id)) as [->|Hne];
      destruct (decide (_ ∈ id :: ids)) as [Hc|Hc]; try reflexivity;
      try (exfalso; apply Hc; rewrite elem_of_cons; auto; fail).
    + now rewrite dress_idempotent.
    + apply elem_of_cons in Hc as [?|?]; contradiction.
Qed.

Lemma obj_loads_run (f : File) (t : Texture.TextureExample) (w : World) :
  let w2 := snd (decode f (snd (settle_load ObjLoad w))) in
  let root := length (heap w) in
  let m := match Texture.material t with Some m => m | None => O end in
  let ids := match Texture.material t with
             | Some _ => traverse_order (length (heap w2)) (heap w2) root
             | None => []
             end in
  let w3 := snd (exec (for_each ids (Texture.apply_material m)) (t, w2)) in
  Texture.obj_loads f (t, w)
  = (Done tt,
     (t, with_heap
           (alter (fun o => set_children (children o ++ [root]) o)
                  (Example._scene (Texture.base t))
                  (alter (set_parent (Some (Example._scene (Texture.base t))))
                         root (heap w3)))
           w3)).
Proof.
  intros w2 root m ids w3.
  set (w1 := snd (settle_load ObjLoad w)) in *.
  destruct (decode_extends f w1) as (Hd & L & P & R & _).
  change (heap w1) with (heap w) in *. fold w2 root in Hd, L, P, R.
  destruct (apply_material_shape m ids (t, w2)) as (A1 & A2 & A3).
  cbn [fst snd] in A2, A3. destruct A3 as (_ & _ & AP & _).
  assert (Hadd := add_orphan (Example._scene (Texture.base t)) root w3).
  unfold w3 in Hadd at 1. rewrite AP in Hadd. specialize (Hadd R).
  unfold Texture.obj_loads, Texture.on_obj_load, bind, world, this.
  cbn [fst snd]. fold w1. rewrite Hd. fold w2. cbn [fst snd].
  unfold traverse, bind, get. cbn [fst snd].
  change (fst (settle_load ObjLoad w)) with (@Done unit tt). cbn iota.
  subst w3 ids m. unfold exec in *.
  destruct (Texture.material t) as [m|]; cbn [fst snd] in *.
  - rewrite A1. cbn [fst snd]. rewrite Hadd. cbn [fst snd]. rewrite A2. reflexivity.
  - cbn [for_each ret fst snd] in *. rewrite Hadd. reflexivity.
Qed.

(** ** The environment of the texture example *)

Lemma env_inv_keep (x : list Load) (s s' : Texture.TextureExample * World) :
  Texture.base (fst s') = Texture.base (fst s) \/
  Example._scene (Texture.base (fst s')) = Example._scene (Texture.base (fst s)) ->
  Texture.hdrCubemap (fst s') = Texture.hdrCubemap (fst s) ->
  (forall o, heap (snd s) !! O = Some o ->
     exists o', heap (snd s') !! O = Some o' /\
                background o' = background o /\ environment o' = environment o) ->
  settled (snd s') = settled (snd s) ++ x ->
  CubemapLoad ∉ x ->
  env_inv s -> env_inv s'.
Proof.
  intros Eb Ec Eh Es Hx (Hsc & c & o & H1 & H2 & H3 & H4).
  destruct (Eh o H2) as (o' & Ho' & Hbg & Henv).
  split; [destruct Eb as [->| ->]; exact Hsc|].
  exists c, o'. rewrite Ec, Es, Hbg, Henv.
  split; [exact H1|]. split; [exact Ho'|]. split; [exact H3|]. split.
  - intros H. rewrite elem_of_app. left. exact (proj1 H4 H).
  - rewrite elem_of_app. intros [H|H]; [exact (proj2 H4 H)|contradiction].
Qed.

Lemma texture_settles_effect (i : nat) (s : Texture.TextureExample * World) :
  Texture.base (fst (exec (Texture.texture_settles i) s)) = Texture.base (fst s) /\
  Texture.hdrCubemap (fst (exec (Texture.texture_settles i) s))
  = Texture.hdrCubemap (fst s) /\
  heap (snd (exec (Texture.texture_settles i) s)) = heap (snd s) /\
  settled (snd (exec (Texture.texture_settles i) s))
  = settled (snd s) ++ [TextureLoad i].
Proof.
  destruct s as [t w].
  unfold exec, Texture.texture_settles, Texture.itemEnd, Texture.manager_onLoad, bind.
  simpl. destruct (decide _); [destruct (Texture.onLoad _)|]; simpl; auto.
Qed.

Lemma env_inv_step (e : Texture.Event) (s : Texture.TextureExample * World) :
  env_inv s -> env_inv (exec (Texture.handle e) s).
Proof.
  intros Hs.
  assert (Hself : forall o : Object3D, heap (snd s) !! O = Some o ->
            exists o', heap (snd s) !! O = Some o' /\
                       background o' = background o /\ environment o' = environment o)
    by (intros o Ho; exists o; auto).
  destruct e as [| |w h| |i|f| |]; cbn [Texture.handle].
  - exact Hs.
  - apply (env_inv_keep [] s); auto using app_nil_r, not_elem_of_nil;
      destruct s as [[[sc cam []] ? ? ?] wd]; auto using app_nil_r.
    all: cbn; rewrite ?app_nil_r; auto.
  - apply (env_inv_keep [] s); auto using not_elem_of_nil.
    cbn. now rewrite app_nil_r.
  - apply (env_inv_keep [] s); auto using not_elem_of_nil.
    cbn. now rewrite app_nil_r.
  - destruct (texture_settles_effect i s) as (E1 & E2 & E3 & E4).
    apply (env_inv_keep [TextureLoad i] s); auto.
    + rewrite E3. exact Hself.
    + rewrite elem_of_cons, elem_of_nil. intros [H|[]]. discriminate.
  - destruct s as [t w]. destruct Hs as (Hsc & c & o & H1 & H2 & H3 & H4).
    cbn [fst snd] in *.
    assert (Hrun := obj_loads_run f t w). cbv zeta in Hrun.
    destruct (decode_extends f (snd (settle_load ObjLoad w)))
      as (Hd & L & P & R & _ & _ & Hse).
    change (heap (snd (settle_load ObjLoad w))) with (heap w) in *.
    assert (H0 : (0 < length (heap w))%nat)
      by (apply lookup_lt_is_Some; eauto).
    unfold exec. rewrite Hrun. unfold env_inv.
    cbn [fst snd heap with_heap settled]. split; [exact Hsc|].
    match goal with
    |- context [exec (for_each ?ids (Texture.apply_material ?m)) (t, ?w2)] =>
      assert (Hp := apply_material_pointwise m ids t w2 O);
      destruct (apply_material_shape m ids (t, w2)) as (_ & _ & A3)
    end.
    cbn [fst snd] in A3. destruct A3 as (_ & _ & _ & _ & _ & _ & ASe).
    unfold exec in *. rewrite (P O H0), H2 in Hp.
    rewrite Hsc. exists c.
    rewrite list_lookup_alter_eq, list_lookup_alter_ne by lia.
    rewrite Hp, ASe, Hse. cbn [fmap option_fmap option_map].
    eexists. split; [exact H1|]. split; [reflexivity|].
    cbn [snd settle_load modify settled with_settled with_loading].
    assert (Hd' : forall m o, background (dress m o) = background o /\
                              environment (dress m o) = environment o)
      by (intros m' [[] ? ? ? ? ? ? ?]; split; reflexivity).
    assert (He : forall o', environment o' = environment o ->
              (is_Some (environment o') <-> CubemapLoad ∈ settled w ++ [ObjLoad])).
    { intros o' ->. rewrite H4, elem_of_app, list_elem_of_singleton.
      split; [auto|]. intros [H|H]; [exact H|discriminate]. }
    match goal with |- context [if ?d then dress ?m else _] => destruct d end;
      cbn [background environment set_children].
    + rewrite (proj1 (Hd' _ _)). split; [exact H3|]. apply He, Hd'.
    + split; [exact H3|]. now apply He.
  - apply (env_inv_keep [ObjLoad] s); auto.
    rewrite elem_of_cons, elem_of_nil. intros [H|[]]. discriminate.
  - destruct s as [t w]. destruct Hs as (Hsc & c & o & H1 & H2 & H3 & H4).
    cbn [fst snd] in *. split; [exact Hsc|].
    exists c, (set_environment (Some (length (resources w))) o).
    split; [exact H1|]. split.
    { change (alter (set_environment (Some (length (resources w))))
                    (Example._scene (Texture.base t)) (heap w) !! O
              = Some (set_environment (Some (length (resources w))) o)).
      rewrite Hsc, list_lookup_alter_eq, H2. reflexivity. }
    split; [exact H3|].
    change (is_Some (Some (length (resources w))) <->
            CubemapLoad ∈ settled w ++ [CubemapLoad]).
    split; [|eauto]. intros _. apply elem_of_app. right. apply list_elem_of_here.
Qed.

Lemma env_inv_reachable (s : Texture.TextureExample * World) :
  Texture.reachable s -> env_inv s.
Proof.
  induction 1 as [|s e _ IH _].
  - split; [reflexivity|]. eexists 7%nat, _. split; [reflexivity|].
    split; [vm_compute; reflexivity|]. split; [reflexivity|].
    cbn [environment]. vm_compute settled. split.
    + intros [x Hx]. discriminate.
    + intros H. now apply elem_of_nil in H.
  - now apply env_inv_step.
Qed.

(** X8: in every state an execution of the texture example can reach, the
    scene shows the cubemap texture as its background, and it has an
    environment map exactly when the cubemap load has delivered, whatever the
    texture loads and the model load have done. *)
Theorem texture_environment_follows_cubemap (s : Texture.TextureExample * World) :
  Texture.reachable s ->
  exists c o,
    Texture.hdrCubemap (fst s) = Some c /\
    heap (snd s) !! Example._scene (Texture.base (fst s)) = Some o /\
    background o = Some (BgTexture c) /\
    (is_Some (environment o) <-> CubemapLoad ∈ settled (snd s)).
Proof.
  intros Hr. destruct (env_inv_reachable s Hr) as (Hsc & c & o & H).
  exists c, o. now rewrite Hsc.
Qed.

Lemma texture_environment_follows_cubemap_witness :
  let s := exec (Texture.handle Texture.CubemapLoads)
             (exec (Texture.handle (Texture.TextureSettles 2))
                (exec Texture.initialize Texture.fresh)) in
  Texture.reachable s /\
  exists c o,
    Texture.hdrCubemap (fst s) = Some c /\
    heap (snd s) !! Example._scene (Texture.base (fst s)) = Some o /\
    background o = Some (BgTexture c) /\
    (is_Some (environment o) <-> CubemapLoad ∈ settled (snd s)).
Proof.
  intros s.
  assert (Hr : Texture.reachable s).
  { repeat (apply Texture.reach_step;
            [|cbn [Texture.enabled]; try exact I;
              apply (bool_decide_unpack _); vm_compute; exact I]).
    apply Texture.reach_initialized. }
  split; [exact Hr|].
  exact (texture_environment_follows_cubemap s Hr).
Defined.

(** ** Where the loader puts the objects of a file *)

Lemma laid_node (h : list Object3D) (off r : nat) (k : AssetKind) (parts : list Asset) :
  laid h off r (ANode k parts)
  = ((exists o, h !! r = Some o /\ kind o = asset_kind off k /\
                children o = starts (Datatypes.S r) parts) /\
     laid_parts h off (Datatypes.S r) parts).
Proof.
  cbn [laid]. f_equal. generalize (Datatypes.S r). clear.
  induction parts as [|c parts IH]; intros n; [reflexivity|].
  cbn [laid_parts]. now rewrite <- IH.
Qed.

Lemma size_node (k : AssetKind) (parts : list Asset) :
  size (ANode k parts) = Datatypes.S (sizes parts).
Proof. reflexivity. Qed.

Lemma sizes_app (l1 l2 : list Asset) : sizes (l1 ++ l2) = (sizes l1 + sizes l2)%nat.
Proof. unfold sizes. induction l1 as [|c l1 IH]; simpl; [reflexivity|]. rewrite IH. lia. Qed.

Lemma starts_app (r : nat) (l1 l2 : list Asset) :
  starts r (l1 ++ l2) = starts r l1 ++ starts (r + sizes l1) l2.
Proof.
  revert r. induction l1 as [|c l1 IH]; intros r; simpl.
  - now rewrite Nat.add_0_r.
  - rewrite IH. unfold sizes. simpl. do 3 f_equal. lia.
Qed.

Lemma laid_parts_app (h : list Object3D) (off r : nat) (l1 l2 : list Asset) :
  laid_parts h off r (l1 ++ l2)
  <-> laid_parts h off r l1 /\ laid_parts h off (r + sizes l1) l2.
Proof.
  revert r. induction l1 as [|c l1 IH]; intros r; simpl.
  - rewrite Nat.add_0_r. tauto.
  - rewrite IH. unfold sizes. simpl.
    replace (r + size c + foldr (fun p n => (size p + n)%nat) O l1)%nat
      with (r + (size c + foldr (fun p n => (size p + n)%nat) O l1))%nat by lia.
    tauto.
Qed.

Lemma laid_stable (a : Asset) :
  forall (h h' : list Object3D) (off r : nat),
    laid h off r a ->
    (forall j o, (r <= j < r + size a)%nat -> h !! j = Some o ->
                 exists o', h' !! j = Some o' /\ kind o' = kind o /\
                            children o' = children o) ->
    laid h' off r a.
Proof.
  induction a as [k parts IH] using Asset_parts_ind. intros h h' off r.
  rewrite !laid_node, size_node. intros ((o & Ho & Hk & Hc) & Hparts) Hsame.
  split.
  - destruct (Hsame r o ltac:(lia) Ho) as (o' & Ho' & Hk' & Hc').
    exists o'. rewrite Hk', Hc'. auto.
  - assert (Hsame' : forall j o, (Datatypes.S r <= j < Datatypes.S r + sizes parts)%nat ->
              h !! j = Some o ->
              exists o', h' !! j = Some o' /\ kind o' = kind o /\ children o' = children o)
      by (intros j o' Hj; apply Hsame; lia).
    clear Hsame Ho Hk Hc. clear o.
    revert Hparts Hsame'. generalize (Datatypes.S r). clear r.
    induction IH as [|c parts Hc _ IHl]; intros r Hparts Hsame; [exact I|].
    cbn [laid_parts] in *. unfold sizes in Hsame. cbn [foldr] in Hsame.
    fold (sizes parts) in Hsame. destruct Hparts as [H1 H2]. split.
    + apply (Hc h h' off r H1). intros j o Hj. apply Hsame. lia.
    + apply IHl; [exact H2|]. intros j o Hj. apply Hsame. lia.
Qed.

Lemma laid_parts_stable (parts : list Asset) :
  forall (h h' : list Object3D) (off r : nat),
    laid_parts h off r parts ->
    (forall j o, (r <= j < r + sizes parts)%nat -> h !! j = Some o ->
                 exists o', h' !! j = Some o' /\ kind o' = kind o /\
                            children o' = children o) ->
    laid_parts h' off r parts.
Proof.
  induction parts as [|c parts IH]; intros h h' off r Hparts Hsame; [exact I|].
  cbn [laid_parts] in *. unfold sizes in Hsame. cbn [foldr] in Hsame.
  fold (sizes parts) in Hsame. destruct Hparts as [H1 H2]. split.
  - apply (laid_stable c h h' off r H1). intros j o Hj. apply Hsame. lia.
  - apply (IH h h' off _ H2). intros j o Hj. apply Hsame. lia.
Qed.

Lemma build_cons (off n0 : nat) (c : Asset) (rest : list Asset) (w : World) :
  build (instantiate off) n0 (c :: rest) w
  = build (instantiate off) n0 rest
      (with_heap
         (alter (fun o => set_children (children o ++ [length (heap w)]) o) n0
                (alter (set_parent (Some n0)) (length (heap w))
                       (heap (snd (instantiate off c w)))))
         (snd (instantiate off c w))).
Proof.
  destruct (instantiate_extends c off w) as (Hid & _ & _ & R & _).
  assert (Hadd := add_orphan n0 (length (heap w)) (snd (instantiate off c w)) R).
  cbn [build]. unfold bind. rewrite Hid. rewrite Hadd. reflexivity.
Qed.

Lemma build_laid (off : nat) (k : ObjKind) (w0 : World) (rest : list Asset) :
  Forall (fun c => forall off w,
            length (heap (snd (instantiate off c w)))
            = (length (heap w) + size c)%nat /\
            laid (heap (snd (instantiate off c w))) off (length (heap w)) c) rest ->
  forall (done : list Asset) (w : World),
    extends w0 w ->
    length (heap w) = (Datatypes.S (length (heap w0)) + sizes done)%nat ->
    (exists o, heap w !! length (heap w0) = Some o /\ kind o = k /\
               children o = starts (Datatypes.S (length (heap w0))) done) ->
    laid_parts (heap w) off (Datatypes.S (length (heap w0))) done ->
    let w' := snd (build (instantiate off) (length (heap w0)) rest w) in
    length (heap w') = (Datatypes.S (length (heap w0)) + sizes (done ++ rest))%nat /\
    (exists o, heap w' !! length (heap w0) = Some o /\ kind o = k /\
               children o = starts (Datatypes.S (length (heap w0))) (done ++ rest)) /\
    laid_parts (heap w') off (Datatypes.S (length (heap w0))) (done ++ rest).
Proof.
  induction 1 as [|c rest Hc _ IH]; intros done w Hext Hlen Hroot Hdone.
  - cbn [build snd ret]. rewrite app_nil_r. auto.
  - rewrite build_cons.
    destruct (instantiate_extends c off w) as (_ & Hext1).
    destruct (Hc off w) as (Hlen1 & Hlaid1).
    set (w1 := snd (instantiate off c w)) in *.
    set (n0 := length (heap w0)) in *.
    set (h2 := alter (fun o => set_children (children o ++ [length (heap w)]) o) n0
                     (alter (set_parent (Some n0)) (length (heap w)) (heap w1))).
    pose proof Hext as (L0 & P0 & _).
    pose proof Hext1 as (L1 & P1 & _).
    assert (Hkeep : forall j o, j <> n0 -> heap w1 !! j = Some o ->
              exists o', h2 !! j = Some o' /\ kind o' = kind o /\
                         children o' = children o).
    { intros j o Hj Ho. unfold h2. rewrite list_lookup_alter_ne by congruence.
      destruct (decide (length (heap w) = j)) as [<-|Hne].
      - rewrite list_lookup_alter_eq, Ho. eexists. split; [reflexivity|]. auto.
      - rewrite list_lookup_alter_ne by exact Hne. eauto. }
    replace (done ++ c :: rest) with ((done ++ [c]) ++ rest)
      by (now rewrite <- app_assoc).
    apply (IH (done ++ [c]) (with_heap h2 w1)).
    + exact (extends_add w0 w w1 Hext Hext1).
    + cbn [heap with_heap]. unfold h2. rewrite !length_alter, Hlen1, Hlen, sizes_app.
      unfold sizes. simpl. lia.
    + destruct Hroot as (o & Ho & Hk & Hch). cbn [heap with_heap].
      exists (set_children (children o ++ [length (heap w)]) o).
      split; [|split; [exact Hk|]].
      * unfold h2. rewrite list_lookup_alter_eq, list_lookup_alter_ne by lia.
        rewrite (P1 n0) by lia. now rewrite Ho.
      * cbn [children set_children]. rewrite Hch, starts_app. cbn [starts].
        do 2 f_equal. lia.
    + cbn [heap with_heap]. apply laid_parts_app. split.
      * apply (laid_parts_stable done (heap w) h2 off _ Hdone).
        intros j o Hj Ho. apply Hkeep; [lia|]. rewrite P1 by lia. exact Ho.
      * cbn [laid_parts]. split; [|exact I].
        replace (Datatypes.S n0 + sizes done)%nat with (length (heap w)) by lia.
        apply (laid_stable c (heap w1) h2 off _ Hlaid1).
        intros j o Hj Ho. apply Hkeep; [lia|exact Ho].
Qed.

Lemma instantiate_laid (a : Asset) :
  forall off w,
    length (heap (snd (instantiate off a w))) = (length (heap w) + size a)%nat /\
    laid (heap (snd (instantiate off a w))) off (length (heap w)) a.
Proof.
  induction a as [k parts IH] using Asset_parts_ind. intros off w.
  set (wa := with_heap (heap w ++ [blank (asset_kind off k)]) w).
  assert (Hb := build_laid off (asset_kind off k) w parts IH [] wa
                  (extends_refl_new (asset_kind off k) w)).
  assert (Hall : Forall (fun a => forall off w,
                    fst (instantiate off a w) = Done (length (heap w)) /\
                    extends w (snd (instantiate off a w))) parts)
    by (apply Forall_forall; intros a _; apply instantiate_extends).
  destruct (build_extends off parts Hall w wa
              (extends_refl_new (asset_kind off k) w)) as (Hret & _).
  cbn [instantiate]. unfold bind, new_object. cbn [fst snd]. fold wa.
  rewrite Hret. cbn [fst snd ret]. rewrite laid_node, size_node.
  cbn [app] in Hb. destruct Hb as (B1 & B2 & B3).
  - subst wa. cbn [heap with_heap]. rewrite length_app. unfold sizes. simpl. lia.
  - exists (blank (asset_kind off k)). subst wa. cbn [heap with_heap].
    rewrite lookup_app_r by lia. rewrite Nat.sub_diag. auto.
  - exact I.
  - split; [rewrite B1; lia|]. split; assumption.
Qed.

Lemma children_of_laid (h : list Object3D) (off r : nat) (k : AssetKind)
      (parts : list Asset) :
  laid h off r (ANode k parts) -> children_of h r = starts (Datatypes.S r) parts.
Proof.
  rewrite laid_node. intros ((o & Ho & _ & Hc) & _). unfold children_of.
  now rewrite Ho.
Qed.

Lemma traverse_laid (a : Asset) :
  forall (h : list Object3D) (off r fuel : nat),
    laid h off r a -> (size a <= fuel)%nat ->
    traverse_order fuel h r = seq r (size a).
Proof.
  induction a as [k parts IH] using Asset_parts_ind. intros h off r fuel Hl Hf.
  rewrite size_node in *. destruct fuel as [|n]; [lia|].
  cbn [traverse_order seq]. f_equal.
  rewrite (children_of_laid h off r k parts Hl).
  rewrite laid_node in Hl. destruct Hl as [_ Hparts].
  assert (Hn : (sizes parts <= n)%nat) by lia. clear Hf.
  revert Hparts Hn. generalize (Datatypes.S r). clear r.
  induction IH as [|c parts Hc _ IHl]; intros r Hparts Hn; [reflexivity|].
  cbn [laid_parts starts flat_map] in *. unfold sizes in *. cbn [foldr] in *.
  destruct Hparts as [H1 H2].
  rewrite (Hc h off r n H1) by lia. rewrite IHl by (auto; lia).
  now rewrite <- seq_app.
Qed.

Lemma mesh_resources_laid (a : Asset) :
  forall (h : list Object3D) (off r : nat),
    laid h off r a ->
    flat_map (mesh_resources h) (seq r (size a)) = asset_resources off a.
Proof.
  induction a as [k parts IH] using Asset_parts_ind. intros h off r Hl.
  rewrite size_node. cbn [seq flat_map asset_resources].
  rewrite laid_node in Hl. destruct Hl as [(o & Ho & Hk & _) Hparts].
  f_equal.
  - unfold mesh_resources. now rewrite Ho, Hk.
  - revert Hparts. generalize (Datatypes.S r). clear r o Ho Hk.
    induction IH as [|c parts Hc _ IHl]; intros r Hparts; [reflexivity|].
    cbn [laid_parts flat_map] in *. unfold sizes. cbn [foldr]. fold (sizes parts).
    destruct Hparts as [H1 H2].
    rewrite seq_app, flat_map_app. rewrite (Hc h off r H1). f_equal.
    now apply IHl.
Qed.

Lemma decode_laid (f : File) (w : World) :
  length (heap (snd (decode f w))) = (length (heap w) + size (file_root f))%nat /\
  laid (heap (snd (decode f w))) (length (resources w)) (length (heap w))
       (file_root f).
Proof.
  assert (Heq : snd (decode f w)
                = snd (instantiate (length (resources w)) (file_root f)
                         (with_resources (resources w ++ file_resources f) w))).
  { unfold decode, bind, get, modify. cbn [fst snd].
    now destruct (instantiate _ _ _) as [[] ?]. }
  rewrite Heq.
  exact (instantiate_laid (file_root f) (length (resources w))
           (with_resources (resources w ++ file_resources f) w)).
Qed.

(** ** The model of the glTF example, from load to [destroy] *)

Lemma bind_done {S A B} (m : M S A) (k : A -> M S B) (s : S) (a : A) :
  fst (m s) = Done a -> bind m k s = k a (exec m s).
Proof. intros H. unfold bind, exec. now rewrite H. Qed.

Lemma gltf_load_run (f : File) (clip : nat) (g : Gltf.GLTFExample) (w : World) :
  file_animations f !! O = Some clip ->
  let w2 := snd (decode f (snd (settle_load GltfLoad w))) in
  let root := length (heap w) in
  Gltf.load_completes f (g, w)
  = (Done tt,
     (Gltf.set_mixer (Some (Gltf.mkMixer root 0 [clip]))
        (Gltf.set_mixer (Some (Gltf.mkMixer root 0 [])) g),
      with_heap
        (alter (fun o => set_children (children o ++ [root]) o)
               (Example._scene (Gltf.base g))
               (alter (set_parent (Some (Example._scene (Gltf.base g)))) root
                      (heap w2)))
        w2)).
Proof.
  intros Hclip w2 root.
  set (w1 := snd (settle_load GltfLoad w)) in *.
  destruct (decode_extends f w1) as (Hd & L & P & R & _).
  change (heap w1) with (heap w) in *. fold w2 root in Hd, R.
  assert (Hadd := add_orphan (Example._scene (Gltf.base g)) root w2 R).
  unfold Gltf.load_completes, Gltf.on_load, bind, world, set_this, this, modify.
  cbn [fst snd]. fold w1. rewrite Hd. fold w2. cbn [fst snd Gltf.animations Gltf.scene].
  rewrite Hclip. cbn [fst snd Gltf.base Gltf.set_mixer Gltf._mixer].
  rewrite Hadd. reflexivity.
Qed.

Lemma decode_resources (f : File) (w : World) :
  resources (snd (decode f w)) = resources w ++ file_resources f.
Proof.
  assert (Heq : snd (decode f w)
                = snd (instantiate (length (resources w)) (file_root f)
                         (with_resources (resources w ++ file_resources f) w))).
  { unfold decode, bind, get, modify. cbn [fst snd].
    now destruct (instantiate _ _ _) as [[] ?]. }
  rewrite Heq.
  destruct (instantiate_extends (file_root f) (length (resources w))
              (with_resources (resources w ++ file_resources f) w))
    as (_ & _ & _ & _ & Hr & _).
  exact Hr.
Qed.

Lemma gltf_destroy_resources (s : Gltf.GLTFExample * World) :
  resources (snd (exec Gltf.destroy s)) = resources (snd s).
Proof.
  destruct s as [g w].
  unfold exec, Gltf.destroy, Example.destroy, traverse, bind, super, this,
    set_this, modify, get.
  cbn [fst snd]. rewrite for_each_dispose_mesh. cbn [fst snd].
  unfold world. cbn [fst snd].
  match goal with |- context [clear ?sc ?w'] =>
    destruct (clear_effect sc w') as (C1 & _ & _ & _ & _ & C2 & _) end.
  rewrite ?C1. cbn [fst snd]. now rewrite C2.
Qed.

(** X9: the glTF example is initialised, any model file with at least one
    clip is loaded and the example is destroyed.  All three steps return, and
    [destroy] has called [dispose] exactly on the geometry and then the
    materials of each mesh of the model, mesh by mesh in the order the file
    lists them, so a resource that [k] meshes share is disposed [k] times;
    the lights dispose nothing, and the scene root ends without children. *)
Theorem gltf_destroy_disposes_model (window : Q * Q) (f : File) (clip : nat) :
  file_animations f !! O = Some clip ->
  let run := (Gltf.initialize ;; Gltf.load_completes f ;; Gltf.destroy)%monad in
  let s := exec run (Gltf.fresh window) in
  returns run (Gltf.fresh window) /\
  resources (snd s) = file_resources f /\
  disposed (snd s) = asset_resources 0 (file_root f) /\
  children_of (heap (snd s)) 0 = [].
Proof.
  intros Hclip run s.
  set (s0 := exec Gltf.initialize (Gltf.fresh window)).
  assert (H0 : fst (Gltf.initialize (Gltf.fresh window)) = Done tt) by reflexivity.
  assert (Hload := gltf_load_run f clip (fst s0) (snd s0) Hclip). cbv zeta in Hload.
  set (w1 := snd (settle_load GltfLoad (snd s0))) in *.
  destruct (decode_extends f w1) as (_ & L & P & _ & Hcalls & _).
  destruct (decode_laid f w1) as (Hlen & Hlaid).
  set (w2 := snd (decode f w1)) in *.
  change (heap w1) with (heap (snd s0)) in *.
  change (length (heap (snd s0))) with 4%nat in *.
  change (length (resources w1)) with O in *.
  change (Example._scene (Gltf.base (fst s0))) with O in *.
  set (h3 := alter (fun o => set_children (children o ++ [4%nat]) o) O
                   (alter (set_parent (Some O)) 4%nat (heap w2))) in *.
  assert (Hres : resources w2 = file_resources f)
    by exact (decode_resources f w1).
  assert (Hl3 : laid h3 0 4 (file_root f)).
  { apply (laid_stable _ (heap w2) h3 0 4 Hlaid). intros j o Hj Ho. unfold h3.
    rewrite list_lookup_alter_ne by lia.
    destruct (decide (4%nat = j)) as [<-|Hne].
    - rewrite list_lookup_alter_eq, Ho. eexists. split; [reflexivity|]. auto.
    - rewrite list_lookup_alter_ne by exact Hne. eauto. }
  assert (Hlow : forall j, (0 < j < 4)%nat -> h3 !! j = heap (snd s0) !! j).
  { intros j Hj. unfold h3. rewrite !list_lookup_alter_ne by lia. apply P. lia. }
  assert (Hroot : h3 !! O
                  = (fun o => set_children (children o ++ [4%nat]) o)
                      <$> heap (snd s0) !! O).
  { unfold h3. rewrite list_lookup_alter_eq, list_lookup_alter_ne by lia.
    now rewrite (P O ltac:(lia)). }
  assert (Hlen3 : length h3 = Datatypes.S (Datatypes.S (Datatypes.S
                    (Datatypes.S (size (file_root f)))))).
  { unfold h3. rewrite !length_alter, Hlen. reflexivity. }
  clearbody h3.
  assert (Hord : traverse_order (length h3) h3 0
                 = [0; 2; 3]%nat ++ seq 4 (size (file_root f))).
  { assert (Hc0 : children_of h3 0 = [2; 3; 4]%nat)
      by (unfold children_of; now rewrite Hroot).
    assert (Hc2 : children_of h3 2 = []).
    { unfold children_of. now rewrite (Hlow 2%nat ltac:(lia)). }
    assert (Hc3 : children_of h3 3 = []).
    { unfold children_of. now rewrite (Hlow 3%nat ltac:(lia)). }
    rewrite Hlen3.
    change (traverse_order (Datatypes.S ?n) h3 0)
      with (O :: flat_map (traverse_order n h3) (children_of h3 0)).
    rewrite Hc0. cbn [flat_map].
    change (traverse_order (Datatypes.S ?n) h3 2)
      with (2%nat :: flat_map (traverse_order n h3) (children_of h3 2)).
    change (traverse_order (Datatypes.S ?n) h3 3)
      with (3%nat :: flat_map (traverse_order n h3) (children_of h3 3)).
    rewrite Hc2, Hc3. cbn [flat_map app].
    rewrite (traverse_laid _ h3 0 4 _ Hl3) by lia. now rewrite app_nil_r. }
  assert (Hrun : run (Gltf.fresh window)
                 = Gltf.destroy (exec (Gltf.load_completes f) s0)).
  { assert (Hl : fst (Gltf.load_completes f s0) = Done tt)
      by (change (fst (Gltf.load_completes f (fst s0, snd s0)) = Done tt);
          now rewrite Hload).
    unfold run.
    rewrite (bind_done Gltf.initialize
               (fun _ => bind (Gltf.load_completes f) (fun _ => Gltf.destroy))
               (Gltf.fresh window) tt H0).
    fold s0.
    exact (bind_done (Gltf.load_completes f) (fun _ => Gltf.destroy) s0 tt Hl). }
  destruct (gltf_destroy_run (exec (Gltf.load_completes f) s0))
    as ((u & D1) & D2 & D3 & _).
  assert (Hs1 : exec (Gltf.load_completes f) s0
                = (Gltf.set_mixer (Some (Gltf.mkMixer 4 0 [clip]))
                     (Gltf.set_mixer (Some (Gltf.mkMixer 4 0 [])) (fst s0)),
                   with_heap h3 w2)).
  { unfold exec. change (Gltf.load_completes f s0)
      with (Gltf.load_completes f (fst s0, snd s0)). now rewrite Hload. }
  unfold s, returns. unfold exec at 1 2 3. rewrite Hrun.
  split; [now exists u|].
  rewrite Hs1 in D2, D3 |- *. unfold exec in D2, D3.
  cbn [fst snd heap with_heap] in D2, D3.
  change (Example._scene (Gltf.base _)) with O in D2, D3.
  split; [|split; [|exact D3]].
  - assert (Hr := gltf_destroy_resources
                    (Gltf.set_mixer (Some (Gltf.mkMixer 4 0 [clip]))
                       (Gltf.set_mixer (Some (Gltf.mkMixer 4 0 [])) (fst s0)),
                     with_heap h3 w2)).
    unfold exec in Hr. rewrite Hr. exact Hres.
  - rewrite D2, Hord, flat_map_app. unfold disposed at 1. cbn [calls with_heap].
    rewrite Hcalls. change (calls w1) with (@nil Call).
    change (omap _ (@nil Call)) with (@nil nat).
    cbn [flat_map]. unfold mesh_resources at 1 2 3.
    rewrite Hroot, (Hlow 2%nat ltac:(lia)), (Hlow 3%nat ltac:(lia)).
    change (heap (snd s0) !! O) with (Some (set_background (Some (BgColor 0xdce2c8))
              (set_children [2; 3]%nat (blank KScene)))).
    change (heap (snd s0) !! 2%nat) with (Some (set_parent (Some O) (blank KLight))).
    change (heap (snd s0) !! 3%nat) with (Some (set_parent (Some O) (blank KLight))).
    cbn [fmap option_fmap option_map kind set_children set_background set_parent
         blank app].
    exact (mesh_resources_laid _ h3 0 4 Hl3).
Qed.

Lemma gltf_destroy_disposes_model_witness :
  file_animations tokyo !! O = Some O /\
  disposed (snd (exec (Gltf.initialize ;; Gltf.load_completes tokyo ;; Gltf.destroy)
                      (Gltf.fresh (1024, 768))))
  = [0; 1; 2; 1]%nat.
Proof.
  split; [reflexivity|].
  exact (proj1 (proj2 (proj2
    (gltf_destroy_disposes_model (1024, 768) tokyo O eq_refl)))).
Defined.

(** ** The model of the texture example *)

Lemma dress_mesh (m : nat) (o : Object3D) :
  isMesh (dress m o) = isMesh o /\
  (isMesh o = true ->
   Texture.materials (dress m o) = [m] /\ castShadow (dress m o) = true).
Proof. destruct o as [[] ? ? ? ? ? ? ?]; split; try reflexivity; auto; discriminate. Qed.

(** X10: when the OBJ load of the texture example succeeds in a state where
    the composed material exists, the callback returns; the store then ends
    with the objects of the file, every mesh among them carries exactly the
    composed material and casts shadows, and every object that existed before,
    the scene root apart, is as it was (the shadow plane keeps its own
    material). *)
Theorem texture_model_meshes_get_material
        (f : File) (s : Texture.TextureExample * World) (m : nat) :
  Texture.material (fst s) = Some m ->
  (Example._scene (Texture.base (fst s)) < length (heap (snd s)))%nat ->
  let s' := exec (Texture.obj_loads f) s in
  let root := length (heap (snd s)) in
  returns (Texture.obj_loads f) s /\
  length (heap (snd s')) = (root + size (file_root f))%nat /\
  (forall j o, (root <= j)%nat -> heap (snd s') !! j = Some o -> isMesh o = true ->
               Texture.materials o = [m] /\ castShadow o = true) /\
  (forall j, (j < root)%nat -> j <> Example._scene (Texture.base (fst s)) ->
             heap (snd s') !! j = heap (snd s) !! j).
Proof.
  destruct s as [t w]. cbn [fst snd]. intros Hm Hsc.
  assert (Hrun := obj_loads_run f t w). cbv zeta in Hrun. rewrite Hm in Hrun.
  set (w1 := snd (settle_load ObjLoad w)) in *.
  destruct (decode_extends f w1) as (_ & L & P & _).
  destruct (decode_laid f w1) as (Hlen & Hlaid).
  change (heap w1) with (heap w) in *.
  set (w2 := snd (decode f w1)) in *.
  set (root := length (heap w)) in *.
  rewrite (traverse_laid _ _ _ _ _ Hlaid) in Hrun by lia.
  set (ids := seq root (size (file_root f))) in *.
  assert (Hp := apply_material_pointwise m ids t w2).
  destruct (apply_material_shape m ids (t, w2)) as (_ & _ & A3).
  cbn [fst snd] in A3. destruct A3 as (AL & _).
  set (w3 := snd (exec (for_each ids (Texture.apply_material m)) (t, w2))) in *.
  unfold exec, returns. rewrite Hrun. cbn [fst snd heap with_heap].
  split; [now exists tt|]. split; [now rewrite !length_alter, AL|].
  assert (Hin : forall j, j ∈ ids <-> (root <= j < root + size (file_root f))%nat).
  { intros j. unfold ids. rewrite list_elem_of_In, in_seq. tauto. }
  split.
  - intros j o Hj Ho Hmesh.
    rewrite list_lookup_alter_ne in Ho by lia.
    assert (Hlt : (j < root + size (file_root f))%nat).
    { rewrite <- Hlen, <- AL, <- (length_alter (set_parent (Some (Example._scene (Texture.base t)))) (heap w3) root).
      apply lookup_lt_is_Some. eauto. }
    assert (Ho3 : exists o3, heap w3 !! j = Some o3 /\ isMesh o3 = isMesh o /\
                             Texture.materials o3 = Texture.materials o /\
                             castShadow o3 = castShadow o).
    { destruct (decide (root = j)) as [<-|Hne].
      - rewrite list_lookup_alter_eq in Ho.
        destruct (heap w3 !! root) as [o3|]; [|discriminate].
        injection Ho as <-. exists o3. auto.
      - rewrite list_lookup_alter_ne in Ho by exact Hne. exists o. auto. }
    destruct Ho3 as (o3 & Ho3 & E1 & E2 & E3). rewrite <- E2, <- E3.
    rewrite Hp in Ho3. destruct (decide (j ∈ ids)) as [_|Hn];
      [|destruct Hn; apply Hin; lia].
    destruct (heap w2 !! j) as [o2|]; [|discriminate].
    injection Ho3 as <-. apply dress_mesh.
    rewrite <- (proj1 (dress_mesh m o2)), E1. exact Hmesh.
  - intros j Hj Hne. rewrite !list_lookup_alter_ne by lia.
    rewrite Hp. destruct (decide (j ∈ ids)) as [Hi|_];
      [apply Hin in Hi; lia|].
    rewrite (P j Hj). now destruct (heap w !! j).
Qed.

Lemma texture_model_meshes_get_material_witness :
  let s := exec (Texture.initialize ;; Texture.texture_settles 0 ;;
                 Texture.texture_settles 1 ;; Texture.texture_settles 2 ;;
                 Texture.texture_settles 3) Texture.fresh in
  Texture.material (fst s) = Some 4%nat /\
  (Example._scene (Texture.base (fst s)) < length (heap (snd s)))%nat /\
  length (heap (snd (exec (Texture.obj_loads tokyo) s))) = (4 + 4)%nat /\
  heap (snd (exec (Texture.obj_loads tokyo) s)) !! 3%nat = heap (snd s) !! 3%nat.
Proof.
  intros s.
  assert (Hm : Texture.material (fst s) = Some 4%nat) by reflexivity.
  assert (Hsc : (Example._scene (Texture.base (fst s)) < length (heap (snd s)))%nat)
    by (vm_compute; lia).
  split; [exact Hm|]. split; [exact Hsc|].
  destruct (texture_model_meshes_get_material tokyo s 4 Hm Hsc) as (_ & H2 & _ & H4).
  split; [exact H2|]. apply H4; [vm_compute; lia|discriminate].
Defined.

(** ** Rounds of [initialize] and [destroy] on the planets example *)





















